(** * A shallow embedding of the credential store engine of
    SecuronisPasswordManager ([src/passmanager.py], class [PasswordManager],
    and [PasswordManagerGUI.check_password_strength]).

    Python values held in [self.passwords] are modelled as [json] values:
    a dict is an association list in insertion order, so iteration order,
    in-place replacement of an existing key and appending of a new key
    behave as in CPython.  Text is modelled as Rocq [string]s of ASCII
    characters.  Exceptions are an explicit [exc] type; the store object is
    threaded through a small state/exception monad. *)

From Stdlib Require Import String Ascii List ZArith Bool Lia.
From Stdlib Require Import Strings.Byte.
Import ListNotations.
Local Open Scope string_scope.
Local Open Scope list_scope.
Set Warnings "-register-all".

(** ** Python values *)

Inductive json : Type :=
| JNull
| JBool (b : bool)
| JNum (n : Z)
| JStr (s : string)
| JArr (xs : list json)
| JObj (kvs : list (string * json)).

(** The Python exceptions the engine can raise. *)
Inductive exc : Type :=
| KeyError
| TypeError
| AttributeError
| FileNotFoundError
| FileExistsError
| NotADirectoryError
| IsADirectoryError
| InvalidToken
| UnicodeDecodeError
| JSONDecodeError.

Inductive res (A : Type) : Type :=
| Ok (a : A)
| Err (e : exc).
Arguments Ok {A} a.
Arguments Err {A} e.

Definition res_bind {A B} (r : res A) (k : A -> res B) : res B :=
  match r with Ok a => k a | Err e => Err e end.

Declare Scope res_scope.
Notation "x <- r ;; k" := (res_bind r (fun x => k))
  (at level 61, r at next level, right associativity) : res_scope.
Local Open Scope res_scope.

(** *** Dicts as insertion-ordered association lists *)

Fixpoint assoc_lookup {V} (k : string) (kvs : list (string * V)) : option V :=
  match kvs with
  | [] => None
  | (k', v) :: rest => if String.eqb k k' then Some v else assoc_lookup k rest
  end.

Definition assoc_mem {V} (k : string) (kvs : list (string * V)) : bool :=
  existsb (fun kv => String.eqb k (fst kv)) kvs.

(** [d[k] = v]: an existing key keeps its position, a new key is appended. *)
Definition assoc_set {V} (k : string) (v : V) (kvs : list (string * V))
  : list (string * V) :=
  if assoc_mem k kvs
  then map (fun kv => if String.eqb k (fst kv) then (k, v) else kv) kvs
  else kvs ++ [(k, v)].

(** [del d[k]] and [d.pop(k, None)]. *)
Definition assoc_del {V} (k : string) (kvs : list (string * V))
  : list (string * V) :=
  filter (fun kv => negb (String.eqb k (fst kv))) kvs.

(** *** Text *)

Definition ascii_lower (c : ascii) : ascii :=
  let n := nat_of_ascii c in
  if (Nat.leb 65 n && Nat.leb n 90)%nat then ascii_of_nat (n + 32)%nat else c.

(** [str.lower()] *)
Fixpoint py_lower (s : string) : string :=
  match s with
  | EmptyString => EmptyString
  | String c s' => String (ascii_lower c) (py_lower s')
  end.

(** [needle in hay] for two strings. *)
Fixpoint str_contains (needle hay : string) : bool :=
  String.prefix needle hay ||
  match hay with
  | EmptyString => false
  | String _ hay' => str_contains needle hay'
  end.

Fixpoint string_chars (s : string) : list json :=
  match s with
  | EmptyString => []
  | String c s' => JStr (String c EmptyString) :: string_chars s'
  end.

(** Truthiness ([if x:]). *)
Definition truthy (j : json) : bool :=
  match j with
  | JNull => false
  | JBool b => b
  | JNum n => negb (Z.eqb n 0)
  | JStr s => negb (String.eqb s "")
  | JArr xs => negb (Nat.eqb (length xs) 0)
  | JObj kvs => negb (Nat.eqb (length kvs) 0)
  end.

(** [if category:] for an optional string argument (default [None]). *)
Definition opt_truthy (o : option string) : bool :=
  match o with Some s => negb (String.eqb s "") | None => false end.

(** *** The Python operators the engine uses, on a string key *)

(** [k in j] *)
Definition py_contains (j : json) (k : string) : res bool :=
  match j with
  | JObj kvs => Ok (assoc_mem k kvs)
  | JArr xs => Ok (existsb (fun x => match x with
                                     | JStr s => String.eqb s k
                                     | _ => false end) xs)
  | JStr s => Ok (str_contains k s)
  | _ => Err TypeError
  end.

(** [j[k]] *)
Definition py_getitem (j : json) (k : string) : res json :=
  match j with
  | JObj kvs => match assoc_lookup k kvs with
                | Some v => Ok v
                | None => Err KeyError
                end
  | _ => Err TypeError
  end.

(** [j[k] = v] *)
Definition py_setitem (j : json) (k : string) (v : json) : res json :=
  match j with
  | JObj kvs => Ok (JObj (assoc_set k v kvs))
  | _ => Err TypeError
  end.

(** [del j[k]] *)
Definition py_delitem (j : json) (k : string) : res json :=
  match j with
  | JObj kvs => if assoc_mem k kvs then Ok (JObj (assoc_del k kvs))
                else Err KeyError
  | _ => Err TypeError
  end.

(** [j.pop(k, None)] *)
Definition py_pop (j : json) (k : string) : res json :=
  match j with
  | JObj kvs => Ok (JObj (assoc_del k kvs))
  | JArr _ => Err TypeError
  | _ => Err AttributeError
  end.

(** [j.items()] *)
Definition py_items (j : json) : res (list (string * json)) :=
  match j with
  | JObj kvs => Ok kvs
  | _ => Err AttributeError
  end.

(** [for t in j] *)
Definition py_iter (j : json) : res (list json) :=
  match j with
  | JArr xs => Ok xs
  | JStr s => Ok (string_chars s)
  | JObj kvs => Ok (map (fun kv => JStr (fst kv)) kvs)
  | _ => Err TypeError
  end.

(** [t.lower()] on an arbitrary value. *)
Definition py_lower_val (j : json) : res string :=
  match j with
  | JStr s => Ok (py_lower s)
  | _ => Err AttributeError
  end.

(** [j[k1][k2] = v], mutating the inner dict in place; the inner dict is
    not shared with any other live value, so writing it back is the same. *)
Definition setitem2 (j : json) (k1 k2 : string) (v : json) : res json :=
  inner <- py_getitem j k1 ;;
  inner' <- py_setitem inner k2 v ;;
  py_setitem j k1 inner'.

(** [j[k1][k2][k3] = v] *)
Definition setitem3 (j : json) (k1 k2 k3 : string) (v : json) : res json :=
  inner <- py_getitem j k1 ;;
  inner' <- setitem2 inner k2 k3 v ;;
  py_setitem j k1 inner'.

(** [for x in xs: acc = f(acc, x)] with exceptions. *)
Fixpoint res_fold {A B} (f : A -> B -> res A) (acc : A) (xs : list B) : res A :=
  match xs with
  | [] => Ok acc
  | x :: rest => acc' <- f acc x ;; res_fold f acc' rest
  end.

(** ** The file system *)

Definition bytes := list byte.

(** A file-system entry: a regular file with its contents, or a
    directory. *)
Inductive node : Type :=
| File (data : bytes)
| Dir.

(** Entries by path.  Paths are compared as strings, so the model covers
    canonical paths as [os.path.join] builds them here (no ['.'] or ['..']
    components, no symbolic links, no repeated ['/']).  A path made only of
    slashes is the root, which always exists as a directory; for a
    relative path the current directory likewise exists.  Permission bits
    are not tracked, and reads and writes of an open file do not fail. *)
Definition fs_t := list (string * node).

(** [head] of [posixpath.split]: everything up to and including the last
    ['/']. *)
Fixpoint path_head (p : string) : string :=
  match p with
  | EmptyString => EmptyString
  | String c rest =>
      let h := path_head rest in
      if String.eqb h "" then (if Ascii.eqb c "/"%char then "/" else "")
      else String c h
  end.

Fixpoint all_slashes (s : string) : bool :=
  match s with
  | EmptyString => true
  | String c rest => Ascii.eqb c "/"%char && all_slashes rest
  end.

Fixpoint rstrip_slashes_rev (cs : list ascii) : list ascii :=
  match cs with
  | c :: rest => if Ascii.eqb c "/"%char then rstrip_slashes_rev rest else cs
  | [] => []
  end.

(** [os.path.dirname] *)
Definition dirname (p : string) : string :=
  let h := path_head p in
  if negb (String.eqb h "") && negb (all_slashes h)
  then string_of_list_ascii (rev (rstrip_slashes_rev (rev (list_ascii_of_string h))))
  else h.

(** The root directory. *)
Definition root_like (p : string) : bool :=
  negb (String.eqb p "") && all_slashes p.

(** The proper ancestors of [p], nearest first: [dirname p],
    [dirname (dirname p)], ... up to the root or to the first component of
    a relative path.  [dirname p] is shorter than [p] unless [p] is the
    root, so the length test only stops the chain there and the fuel
    [String.length p] is never exhausted. *)
Fixpoint ancestors_fuel (n : nat) (p : string) : list string :=
  match n with
  | O => []
  | S n' =>
      let d := dirname p in
      if negb (String.eqb d "") && Nat.ltb (String.length d) (String.length p)
      then d :: ancestors_fuel n' d
      else []
  end.

Definition ancestors (p : string) : list string :=
  ancestors_fuel (String.length p) p.

(** Path resolution: every proper ancestor, from the top, must be a
    directory ([ENOENT] when one is missing, [ENOTDIR] when one is a regular
    file). *)
Fixpoint walk_dirs (fs : fs_t) (ds : list string) : res unit :=
  match ds with
  | [] => Ok tt
  | d :: rest =>
      if root_like d then walk_dirs fs rest
      else
        match assoc_lookup d fs with
        | Some Dir => walk_dirs fs rest
        | Some (File _) => Err NotADirectoryError
        | None => Err FileNotFoundError
        end
  end.

Definition walk (fs : fs_t) (p : string) : res unit :=
  walk_dirs fs (rev (ancestors p)).

(** [os.path.exists(p)] *)
Definition path_exists (fs : fs_t) (p : string) : bool :=
  negb (String.eqb p "") &&
  match walk fs p with
  | Ok _ =>
      root_like p || match assoc_lookup p fs with Some _ => true | None => false end
  | Err _ => false
  end.

(** [open(p, 'rb').read()] *)
Definition open_rb (fs : fs_t) (p : string) : res bytes :=
  if String.eqb p "" then Err FileNotFoundError
  else
    match walk fs p with
    | Err e => Err e
    | Ok _ =>
        if root_like p then Err IsADirectoryError
        else
          match assoc_lookup p fs with
          | Some (File data) => Ok data
          | Some Dir => Err IsADirectoryError
          | None => Err FileNotFoundError
          end
    end.

(** [open(p, 'wb')]: creates the file or truncates it. *)
Definition open_wb (fs : fs_t) (p : string) : res fs_t :=
  if String.eqb p "" then Err FileNotFoundError
  else
    match walk fs p with
    | Err e => Err e
    | Ok _ =>
        if root_like p then Err IsADirectoryError
        else
          match assoc_lookup p fs with
          | Some Dir => Err IsADirectoryError
          | _ => Ok (assoc_set p (File []) fs)
          end
    end.

(** The loop of [os.makedirs(d, exist_ok=True)] over the components
    [comps] of [d], from the top: an existing directory is kept, a missing
    one is created; a regular file raises [FileExistsError] when it is [d]
    itself and [NotADirectoryError] when it is an ancestor of [d].  Returns
    the outcome and the state reached. *)
Fixpoint mkdirs_from (fs : fs_t) (d : string) (comps : list string)
  : res unit * fs_t :=
  match comps with
  | [] => (Ok tt, fs)
  | c :: rest =>
      if root_like c then mkdirs_from fs d rest
      else
        match assoc_lookup c fs with
        | Some Dir => mkdirs_from fs d rest
        | Some (File _) =>
            (Err (if String.eqb c d then FileExistsError else NotADirectoryError), fs)
        | None => mkdirs_from (assoc_set c Dir fs) d rest
        end
  end.

(** [os.makedirs(d, exist_ok=True)]; [os.makedirs('')] raises
    [FileNotFoundError]. *)
Definition makedirs (fs : fs_t) (d : string) : res unit * fs_t :=
  if String.eqb d "" then (Err FileNotFoundError, fs)
  else mkdirs_from fs d (rev (d :: ancestors d)).

(** The file-system actions of [save_passwords]. *)
Inductive fs_op : Type :=
| MakeDirs (d : string)            (* os.makedirs(d, exist_ok=True) *)
| OpenWB (p : string)              (* open(p, 'wb'): creates or truncates *)
| WriteAll (p : string) (data : bytes).   (* file.write(data) *)

(** One action: its outcome and the state after it (on failure, the
    state it left behind). *)
Definition fs_step (fs : fs_t) (op : fs_op) : res unit * fs_t :=
  match op with
  | MakeDirs d => makedirs fs d
  | OpenWB p =>
      match open_wb fs p with
      | Ok fs' => (Ok tt, fs')
      | Err e => (Err e, fs)
      end
  | WriteAll p data => (Ok tt, assoc_set p (File data) fs)
  end.

(** Runs the actions in order up to the first failure; returns the outcome
    and the file-system state after each action that was started. *)
Fixpoint fs_run (ops : list fs_op) (fs : fs_t) : res unit * list fs_t :=
  match ops with
  | [] => (Ok tt, [])
  | op :: ops' =>
      let '(r, fs') := fs_step fs op in
      match r with
      | Err e => (Err e, [fs'])
      | Ok _ => let '(r', tr) := fs_run ops' fs' in (r', fs' :: tr)
      end
  end.

Definition save_ops (path : string) (data : bytes) : list fs_op :=
  [MakeDirs (dirname path); OpenWB path; WriteAll path data].

(** Whether [save_passwords] on [path] completes: the [os.makedirs] and the
    [open] decide it, whatever the data written. *)
Definition save_outcome (path : string) (fs : fs_t) : res unit :=
  fst (fs_run (save_ops path []) fs).

(** [fs'] agrees with [fs] except for directories created where [fs] had
    nothing. *)
Definition only_new_dirs (fs fs' : fs_t) : Prop :=
  forall p, assoc_lookup p fs' = assoc_lookup p fs \/
            (assoc_lookup p fs = None /\ assoc_lookup p fs' = Some Dir).

(** Saving to [p] needs no directory to be created, and [p] can be opened
    for writing. *)
Definition save_ready (p : string) (fs : fs_t) : Prop :=
  dirname p <> "" /\
  (forall c, In c (dirname p :: ancestors (dirname p)) ->
     root_like c = true \/ assoc_lookup c fs = Some Dir) /\
  p <> "" /\ walk fs p = Ok tt /\ root_like p = false /\
  assoc_lookup p fs <> Some Dir.

(** ** Category schema *)

(** [self.categories] and [new_categories] of [migrate_categories]. *)
Definition default_categories : list string :=
  ["Internet"; "Gaming"; "Coding"; "Shopping"; "Social"; "Computer"; "World"].

(** [old_categories] *)
Definition old_categories : list string := ["1"; "2"; "3"; "4"].

(** Lines 29-31 of [__init__]: [self.passwords["categories"] = {}] and one
    empty dict per default category. *)
Definition init_categories (pw : json) : res json :=
  pw1 <- py_setitem pw "categories" (JObj []) ;;
  res_fold (fun pw c => setitem2 pw "categories" c (JObj [])) pw1
           default_categories.

(** The [needs_migration] loop of [check_and_migrate_categories]. *)
Fixpoint any_contains (pw : json) (ks : list string) : res bool :=
  match ks with
  | [] => Ok false
  | k :: rest =>
      cs <- py_getitem pw "categories" ;;
      b <- py_contains cs k ;;
      if b then Ok true else any_contains pw rest
  end.

(** First loop of [migrate_categories]. *)
Definition ensure_category (pw : json) (c : string) : res json :=
  cs <- py_getitem pw "categories" ;;
  b <- py_contains cs c ;;
  if b then Ok pw else setitem2 pw "categories" c (JObj []).

(** [for service, data in ...[old_cat].items(): ...[new_cat][service] = data] *)
Definition copy_services (pw : json) (new_cat : string)
  (items : list (string * json)) : res json :=
  res_fold (fun pw sd => setitem3 pw "categories" new_cat (fst sd) (snd sd))
           pw items.

(** One iteration of the second loop of [migrate_categories]. *)
Definition move_legacy (pw : json) (i : nat) (old_cat : string) : res json :=
  cs <- py_getitem pw "categories" ;;
  b <- py_contains cs old_cat ;;
  if b && Nat.ltb i (length default_categories) then
    let new_cat := nth i default_categories "" in
    oldv <- py_getitem cs old_cat ;;
    items <- py_items oldv ;;
    pw1 <- copy_services pw new_cat items ;;
    cs1 <- py_getitem pw1 "categories" ;;
    cs2 <- py_pop cs1 old_cat ;;
    py_setitem pw1 "categories" cs2
  else Ok pw.

Fixpoint move_all_legacy (pw : json) (i : nat) (olds : list string) : res json :=
  match olds with
  | [] => Ok pw
  | old :: rest => pw' <- move_legacy pw i old ;; move_all_legacy pw' (S i) rest
  end.

(** The dict mutations of [migrate_categories], before its save. *)
Definition migrate_pure (pw : json) : res json :=
  pw1 <- res_fold ensure_category pw default_categories ;;
  move_all_legacy pw1 0 old_categories.

(** ** The credential operations on [self.passwords] *)

Fixpoint res_map {A B} (f : A -> res B) (xs : list A) : res (list B) :=
  match xs with
  | [] => Ok []
  | x :: rest => y <- f x ;; ys <- res_map f rest ;; Ok (y :: ys)
  end.

(** The record dict [{'username': u, 'password': p, 'tags': t}]. *)
Definition mk_record (username password : string) (tags : json) : json :=
  JObj [("username", JStr username); ("password", JStr password); ("tags", tags)].

Definition tags_json (t : list string) : json := JArr (map JStr t).

(** The category argument when [if category:] holds. *)
Definition opt_str (o : option string) : string :=
  match o with Some s => s | None => "" end.

(** [del j[k1][k2][k3]] *)
Definition delitem3 (j : json) (k1 k2 k3 : string) : res json :=
  i1 <- py_getitem j k1 ;;
  i2 <- py_getitem i1 k2 ;;
  i2' <- py_delitem i2 k3 ;;
  i1' <- py_setitem i1 k2 i2' ;;
  py_setitem j k1 i1'.

(** The dict mutations of [add_password], before its save. *)
Definition add_pure (service username password category : string)
  (tags : option (list string)) (pw : json) : res json :=
  cs <- py_getitem pw "categories" ;;
  b <- py_contains cs category ;;
  pw1 <- (if b then Ok pw else setitem2 pw "categories" category (JObj [])) ;;
  let t := match tags with Some t => t | None => [] end in
  setitem3 pw1 "categories" category service
           (mk_record username password (tags_json t)).

(** [existing_tags] of [update_password] for the matched record. *)
Definition kept_tags (tags : option (list string)) (rec : json) : res json :=
  match tags with
  | None => b <- py_contains rec "tags" ;;
            if b then py_getitem rec "tags" else Ok (JArr [])
  | Some _ => Ok (JArr [])
  end.

(** [tags if tags is not None else existing_tags] *)
Definition new_tags (tags : option (list string)) (existing : json) : json :=
  match tags with Some t => tags_json t | None => existing end.

(** The loop over all categories of [update_password]. *)
Fixpoint update_scan (pw : json) (service username password : string)
  (tags : option (list string)) (items : list (string * json))
  : res (option json) :=
  match items with
  | [] => Ok None
  | (cat, services) :: rest =>
      b <- py_contains services service ;;
      if b then
        rec <- py_getitem services service ;;
        existing <- kept_tags tags rec ;;
        services' <- py_setitem services service
                       (mk_record username password (new_tags tags existing)) ;;
        pw' <- setitem2 pw "categories" cat services' ;;
        Ok (Some pw')
      else update_scan pw service username password tags rest
  end.

(** The dict mutations of [update_password]: [None] when it returns
    [False], [Some pw'] when it replaces a record (and then saves). *)
Definition update_pure (service username password : string)
  (category : option string) (tags : option (list string)) (pw : json)
  : res (option json) :=
  if opt_truthy category then
    let cat := opt_str category in
    cs <- py_getitem pw "categories" ;;
    b1 <- py_contains cs cat ;;
    if b1 then
      cv <- py_getitem cs cat ;;
      b2 <- py_contains cv service ;;
      if b2 then
        rec <- py_getitem cv service ;;
        existing <- kept_tags tags rec ;;
        pw' <- setitem3 pw "categories" cat service
                 (mk_record username password (new_tags tags existing)) ;;
        Ok (Some pw')
      else Ok None
    else Ok None
  else
    cs <- py_getitem pw "categories" ;;
    items <- py_items cs ;;
    update_scan pw service username password tags items.

(** The loop over all categories of [delete_password]. *)
Fixpoint delete_scan (pw : json) (service : string)
  (items : list (string * json)) : res (option json) :=
  match items with
  | [] => Ok None
  | (cat, services) :: rest =>
      b <- py_contains services service ;;
      if b then
        pw' <- delitem3 pw "categories" cat service ;;
        Ok (Some pw')
      else delete_scan pw service rest
  end.

(** The dict mutations of [delete_password]. *)
Definition delete_pure (service : string) (category : option string) (pw : json)
  : res (option json) :=
  if opt_truthy category then
    let cat := opt_str category in
    cs <- py_getitem pw "categories" ;;
    b1 <- py_contains cs cat ;;
    if b1 then
      cv <- py_getitem cs cat ;;
      b2 <- py_contains cv service ;;
      if b2 then
        pw' <- delitem3 pw "categories" cat service ;;
        Ok (Some pw')
      else Ok None
    else Ok None
  else
    cs <- py_getitem pw "categories" ;;
    items <- py_items cs ;;
    delete_scan pw service items.

(** [tag_match] of [search_password]. *)
Definition tag_match (tag : option string) (creds : json) : res bool :=
  if opt_truthy tag then
    b <- py_contains creds "tags" ;;
    if b then
      ts <- py_getitem creds "tags" ;;
      if truthy ts then
        xs <- py_iter ts ;;
        lows <- res_map py_lower_val xs ;;
        Ok (existsb (String.eqb (py_lower (opt_str tag))) lows)
      else Ok false
    else Ok false
  else Ok true.

(** The inner loop of [search_password] over one category's services,
    adding to [results]. *)
Fixpoint search_services (keyword : string) (tag : option string)
  (results : list (string * json)) (items : list (string * json))
  : res (list (string * json)) :=
  match items with
  | [] => Ok results
  | (service, creds) :: rest =>
      let keyword_match := str_contains (py_lower keyword) (py_lower service) in
      tm <- tag_match tag creds ;;
      search_services keyword tag
        (if keyword_match && tm then assoc_set service creds results else results)
        rest
  end.

(** [search_password(keyword, category, tag)] *)
Definition search_password (keyword : string) (category : option string)
  (tag : option string) (pw : json) : res json :=
  if opt_truthy category then
    let cat := opt_str category in
    cs <- py_getitem pw "categories" ;;
    b <- py_contains cs cat ;;
    if b then
      cv <- py_getitem cs cat ;;
      items <- py_items cv ;;
      r <- search_services keyword tag [] items ;;
      Ok (JObj r)
    else Ok (JObj [])
  else
    cs <- py_getitem pw "categories" ;;
    cats <- py_items cs ;;
    r <- res_fold (fun acc cat_services =>
                     items <- py_items (snd cat_services) ;;
                     search_services keyword tag acc items) [] cats ;;
    Ok (JObj r).

(** ** [PasswordManagerGUI.check_password_strength] *)

Definition char_between (lo hi : nat) (c : ascii) : bool :=
  let n := nat_of_ascii c in (Nat.leb lo n && Nat.leb n hi)%nat.

(** [str.isupper], [str.islower], [str.isdigit], [str.isalnum] on one
    ASCII character. *)
Definition is_upper (c : ascii) : bool := char_between 65 90 c.
Definition is_lower (c : ascii) : bool := char_between 97 122 c.
Definition is_digit (c : ascii) : bool := char_between 48 57 c.
Definition is_alnum (c : ascii) : bool := is_upper c || is_lower c || is_digit c.

(** [any(f(c) for c in s)] *)
Fixpoint any_char (f : ascii -> bool) (s : string) : bool :=
  match s with
  | EmptyString => false
  | String c rest => f c || any_char f rest
  end.

Definition has_upper (s : string) : bool := any_char is_upper s.
Definition has_lower (s : string) : bool := any_char is_lower s.
Definition has_digit (s : string) : bool := any_char is_digit s.
Definition has_special (s : string) : bool := any_char (fun c => negb (is_alnum c)) s.

Definition common_patterns : list string := ["123456"; "password"; "qwerty"; "admin"].

(** [any(pattern in password.lower() for pattern in common_patterns)] *)
Definition has_common_pattern (s : string) : bool :=
  existsb (fun pat => str_contains pat (py_lower s)) common_patterns.

(** The severity tier and its colour for a score. *)
Definition strength_tier (score : Z) : string * string :=
  if Z.ltb score 30 then ("Weak", "#FF0000")
  else if Z.ltb score 50 then ("Moderate", "#FFA500")
  else if Z.ltb score 70 then ("Strong", "#FFFF00")
  else ("Very Strong", "#00FF00").

(** Returns [(score, feedback_msg, color)]. *)
Definition check_password_strength (password : string) : Z * string * string :=
  let len := String.length password in
  let '(s0, f0) :=
    if Nat.ltb len 8 then (0%Z, ["Password is too short (minimum 8 characters)"])
    else if Nat.leb 12 len then (25%Z, []) else (10%Z, []) in
  let '(s1, f1) := if has_upper password then (s0 + 10, f0)%Z
                   else (s0, f0 ++ ["Add uppercase letters"]) in
  let '(s2, f2) := if has_lower password then (s1 + 10, f1)%Z
                   else (s1, f1 ++ ["Add lowercase letters"]) in
  let '(s3, f3) := if has_digit password then (s2 + 10, f2)%Z
                   else (s2, f2 ++ ["Add numbers"]) in
  let '(s4, f4) := if has_special password then (s3 + 15, f3)%Z
                   else (s3, f3 ++ ["Add special characters"]) in
  let '(score, feedback) := if has_common_pattern password
                            then (s4 - 20, f4 ++ ["Avoid common patterns"])%Z
                            else (s4, f4) in
  let '(strength, color) := strength_tier score in
  let feedback_msg := match feedback with
                      | [] => strength
                      | _ => (strength ++ " - " ++ String.concat ", " feedback)%string
                      end in
  (score, feedback_msg, color).

Definition password_score (password : string) : Z :=
  fst (fst (check_password_strength password)).

(** ** The [PasswordManager] object *)

(** The libraries [save_passwords] and [load_passwords] call: the Fernet
    token primitives (a [nonce] stands for the random IV and the timestamp
    of a token), UTF-8 encoding and the [json] module. *)
Record codec (Key : Type) : Type := mk_codec {
  fernet_encrypt : Key -> nat -> bytes -> bytes;
  fernet_decrypt : Key -> bytes -> option bytes;
  utf8_encode : string -> bytes;
  utf8_decode : bytes -> option string;
  json_dumps : json -> string;
  json_loads : string -> option json
}.
Arguments fernet_encrypt {Key} c _ _ _.
Arguments fernet_decrypt {Key} c _ _.
Arguments utf8_encode {Key} c _.
Arguments utf8_decode {Key} c _.
Arguments json_dumps {Key} c _.
Arguments json_loads {Key} c _.

(** ** CSV input *)

(** A record of [csv.reader]: its fields as text.  Reading a record may
    fail (a [csv.Error], or a decoding error of the file). *)
Definition csv_record := list string.

(** A row of [csv.DictReader]: the fields by name, with [None] (the
    [restval]) for each name past the end of a short record, and under the
    [restkey] [None] the fields past the end of the header of a long
    record. *)
Record dict_row : Type := mk_dict_row {
  row_fields : list (string * option string);
  row_rest : option (list string)
}.

(** [d[k] = v] for each pair in turn. *)
Fixpoint assoc_set_all {V} (kvs : list (string * V)) (d : list (string * V))
  : list (string * V) :=
  match kvs with
  | [] => d
  | (k, v) :: rest => assoc_set_all rest (assoc_set k v d)
  end.

(** The row [csv.DictReader.__next__] builds from a non-blank record:
    [dict(zip(fieldnames, row))], then [d[restkey] = row[lf:]] when the
    record is longer than the header, or [d[key] = restval] for each
    [key in fieldnames[lr:]] when it is shorter. *)
Definition dict_row_of (fieldnames rec : list string) : dict_row :=
  let d := assoc_set_all (combine fieldnames (map Some rec)) [] in
  let lf := List.length fieldnames in
  let lr := List.length rec in
  if Nat.ltb lf lr then mk_dict_row d (Some (skipn lf rec))
  else mk_dict_row (assoc_set_all (map (fun k => (k, None)) (skipn lr fieldnames)) d) None.

(** The rows after the header: blank records are skipped, a failed read
    raises out of the loop. *)
Fixpoint dict_rows (fieldnames : list string) (recs : list (res csv_record))
  : list (res dict_row) :=
  match recs with
  | [] => []
  | Err e :: _ => [Err e]
  | Ok [] :: rest => dict_rows fieldnames rest
  | Ok rec :: rest => Ok (dict_row_of fieldnames rec) :: dict_rows fieldnames rest
  end.

(** [for row in csv.DictReader(file)]: the first record is the header
    ([fieldnames]); an empty file has no rows. *)
Definition dict_reader (recs : list (res csv_record)) : list (res dict_row) :=
  match recs with
  | [] => []
  | Err e :: _ => [Err e]
  | Ok header :: rest => dict_rows header rest
  end.

Section Engine.

Context {Key : Type} (C : codec Key).

(** The attributes of the object and the file system it works on. *)
Record store : Type := mk_store {
  passwords : json;
  files : fs_t;
  file_path : string;
  key : Key;
  nonce : nat
}.

Definition M (A : Type) : Type := store -> res A * store.

Definition mret {A} (a : A) : M A := fun s => (Ok a, s).

(** An exception leaves the object as it is at the raise. *)
Definition mbind {A B} (m : M A) (k : A -> M B) : M B :=
  fun s => let '(r, s') := m s in
           match r with Ok a => k a s' | Err e => (Err e, s') end.

Definition mlift {A} (r : res A) : M A := fun s => (r, s).

(** [try: ... except Exception: ...] *)
Definition mcatch {A} (m : M A) (h : exc -> M A) : M A :=
  fun s => let '(r, s') := m s in
           match r with Ok a => (Ok a, s') | Err e => h e s' end.

Definition get_passwords : M json := fun s => (Ok (passwords s), s).

Definition set_passwords (pw : json) : M unit :=
  fun s => (Ok tt, mk_store pw (files s) (file_path s) (key s) (nonce s)).

Local Notation "x <-- m ;; k" := (mbind m (fun x => k))
  (at level 61, m at next level, right associativity).
Local Notation "m ;;; k" := (mbind m (fun _ => k))
  (at level 61, right associativity).

(** [encrypted_data] of [save_passwords]. *)
Definition encrypted_data (s : store) : bytes :=
  fernet_encrypt C (key s) (nonce s) (utf8_encode C (json_dumps C (passwords s))).

(** The file-system states [save_passwords] goes through. *)
Definition save_run (s : store) : res unit * list fs_t :=
  fs_run (save_ops (file_path s) (encrypted_data s)) (files s).

(** [save_passwords] *)
Definition save_passwords : M unit := fun s =>
  let '(r, trace) := save_run s in
  (r, mk_store (passwords s) (last trace (files s)) (file_path s) (key s)
               (S (nonce s))).

(** [load_passwords] (its return value). *)
Definition load_passwords_res (s : store) : res json :=
  if path_exists (files s) (file_path s) then
    match open_rb (files s) (file_path s) with
    | Err e => Err e
    | Ok encrypted_data =>
        match fernet_decrypt C (key s) encrypted_data with
        | None => Err InvalidToken
        | Some plain =>
            match utf8_decode C plain with
            | None => Err UnicodeDecodeError
            | Some decrypted_data =>
                match json_loads C decrypted_data with
                | None => Err JSONDecodeError
                | Some j => Ok j
                end
            end
        end
    end
  else Ok (JObj []).

Definition load_passwords : M json := fun s => (load_passwords_res s, s).

(** [migrate_categories].  An exception in the middle of the dict
    mutations leaves [self.passwords] unchanged here: its one caller,
    [__init__], propagates the exception and the object is dropped. *)
Definition migrate_categories : M unit :=
  pw <-- get_passwords ;;
  pw' <-- mlift (migrate_pure pw) ;;
  set_passwords pw' ;;;
  save_passwords.

(** [check_and_migrate_categories] *)
Definition check_and_migrate_categories : M unit :=
  pw <-- get_passwords ;;
  needs_migration <-- mlift (any_contains pw old_categories) ;;
  if needs_migration then migrate_categories else mret tt.

(** [__init__] after the key is loaded. *)
Definition init_store : M unit :=
  pw <-- load_passwords ;;
  set_passwords pw ;;;
  b <-- mlift (py_contains pw "categories") ;;
  (if b then mret tt
   else pw' <-- mlift (init_categories pw) ;;
        set_passwords pw' ;;;
        save_passwords) ;;;
  check_and_migrate_categories.

(** [add_password] *)
Definition add_password (service username password category : string)
  (tags : option (list string)) : M unit :=
  pw <-- get_passwords ;;
  pw' <-- mlift (add_pure service username password category tags pw) ;;
  set_passwords pw' ;;;
  save_passwords.

(** [update_password] *)
Definition update_password (service username password : string)
  (category : option string) (tags : option (list string)) : M bool :=
  pw <-- get_passwords ;;
  r <-- mlift (update_pure service username password category tags pw) ;;
  match r with
  | None => mret false
  | Some pw' => set_passwords pw' ;;; save_passwords ;;; mret true
  end.

(** [delete_password] *)
Definition delete_password (service : string) (category : option string) : M bool :=
  pw <-- get_passwords ;;
  r <-- mlift (delete_pure service category pw) ;;
  match r with
  | None => mret false
  | Some pw' => set_passwords pw' ;;; save_passwords ;;; mret true
  end.

(** [row[k]] *)
Definition row_get (r : dict_row) (k : string) : res (option string) :=
  match assoc_lookup k (row_fields r) with Some v => Ok v | None => Err KeyError end.

(** [row.get(k, d)] *)
Definition row_get_default (r : dict_row) (k : string) (d : option string) : option string :=
  match assoc_lookup k (row_fields r) with Some v => v | None => d end.

(** The body of the [for row in reader] loop.  [add] is
    [self.add_password(service, username, password, category)] on the
    values the row gives, [None] being Python's [None] (the [restval] of a
    short record); on strings it is [add_password] with no tags. *)
Definition import_row
  (add : option string -> option string -> option string -> option string -> M unit)
  (r : res dict_row) : M unit :=
  rw <-- mlift r ;;
  service <-- mlift (row_get rw "service") ;;
  username <-- mlift (row_get rw "username") ;;
  password <-- mlift (row_get rw "password") ;;
  let category := row_get_default rw "category" (Some "1") in
  add service username password category.

Fixpoint import_rows
  (add : option string -> option string -> option string -> option string -> M unit)
  (rows : list (res dict_row)) : M unit :=
  match rows with
  | [] => mret tt
  | r :: rest => import_row add r ;;; import_rows add rest
  end.

(** [import_passwords(csv_file)]: [file] is the outcome of
    [open(csv_file, 'r')] and, when it opens, the records [csv.reader]
    reads from it. *)
Definition import_passwords
  (add : option string -> option string -> option string -> option string -> M unit)
  (file : res (list (res csv_record))) : M bool :=
  mcatch (recs <-- mlift file ;; import_rows add (dict_reader recs) ;;; mret true)
         (fun _ => mret false).

End Engine.

(** ** A concrete codec, for running the model on examples

    Identity in place of Fernet (it keeps only the round-trip law of
    [Fernet.encrypt]/[Fernet.decrypt]), Latin-1 bytes for UTF-8 on ASCII
    text, [json.dumps] with its default separators, and a [json.loads]
    that decodes the texts of a given list of values. *)

Definition hex_digit (n : nat) : ascii :=
  if Nat.ltb n 10 then ascii_of_nat (48 + n) else ascii_of_nat (87 + n).

Definition dquote : ascii := ascii_of_nat 34.

Definition escape_char (c : ascii) : string :=
  let n := nat_of_ascii c in
  if Ascii.eqb c dquote then String "\"%char (String dquote EmptyString)
  else if Ascii.eqb c "\"%char then String "\"%char (String "\"%char EmptyString)
  else if Nat.eqb n 10 then "\n"
  else if Nat.eqb n 13 then "\r"
  else if Nat.eqb n 9 then "\t"
  else if Nat.eqb n 8 then "\b"
  else if Nat.eqb n 12 then "\f"
  else if (Nat.ltb n 32 || Nat.leb 127 n)%nat
  then String "\"%char (String "u"%char (String "0"%char (String "0"%char
         (String (hex_digit (n / 16)) (String (hex_digit (n mod 16)) EmptyString)))))
  else String c EmptyString.

Fixpoint escape_string (s : string) : string :=
  match s with
  | EmptyString => EmptyString
  | String c rest => (escape_char c ++ escape_string rest)%string
  end.

Definition quote (s : string) : string :=
  String dquote (escape_string s ++ String dquote EmptyString)%string.

Fixpoint digits_of_pos (fuel : nat) (p : positive) (acc : string) : string :=
  match fuel with
  | O => acc
  | S fuel' =>
      let q := Z.div (Zpos p) 10 in
      let d := String (ascii_of_nat (48 + Z.to_nat (Z.modulo (Zpos p) 10))) acc in
      match q with
      | Zpos q' => digits_of_pos fuel' q' d
      | _ => d
      end
  end.

Definition z_to_string (n : Z) : string :=
  match n with
  | Z0 => "0"
  | Zpos p => digits_of_pos (Pos.size_nat p) p ""
  | Zneg p => ("-" ++ digits_of_pos (Pos.size_nat p) p "")%string
  end.

Fixpoint py_json_dumps (j : json) : string :=
  match j with
  | JNull => "null"
  | JBool true => "true"
  | JBool false => "false"
  | JNum n => z_to_string n
  | JStr s => quote s
  | JArr xs =>
      ("[" ++ (fix go (xs : list json) : string :=
                 match xs with
                 | [] => ""
                 | [x] => py_json_dumps x
                 | x :: rest => py_json_dumps x ++ ", " ++ go rest
                 end) xs ++ "]")%string
  | JObj kvs =>
      ("{" ++ (fix go (kvs : list (string * json)) : string :=
                 match kvs with
                 | [] => ""
                 | [(k, v)] => quote k ++ ": " ++ py_json_dumps v
                 | (k, v) :: rest => quote k ++ ": " ++ py_json_dumps v ++ ", " ++ go rest
                 end) kvs ++ "}")%string
  end.

Definition table_loads (known : list json) (txt : string) : option json :=
  find (fun j => String.eqb (py_json_dumps j) txt) known.

Definition ref_codec (known : list json) : codec unit :=
  mk_codec unit
    (fun _ _ b => b)
    (fun _ b => Some b)
    list_byte_of_string
    (fun b => Some (string_of_list_byte b))
    py_json_dumps
    (table_loads known).

Definition blob_path : string := "/home/alice/.passmanager/passwords.json".

(** A store just after [load_key], before [load_passwords]. *)
Definition fresh_store (fs : fs_t) : @store unit := mk_store JNull fs blob_path tt 0.

(** The encrypted blob of a value under [ref_codec]. *)
Definition ref_blob (j : json) : bytes := list_byte_of_string (py_json_dumps j).

(** The directories above [blob_path], and a file system where
    [blob_path] holds the given bytes. *)
Definition home_dirs : fs_t :=
  [("/home", Dir); ("/home/alice", Dir); ("/home/alice/.passmanager", Dir)].

Definition blob_fs (b : bytes) : fs_t := home_dirs ++ [(blob_path, File b)].

Definition empty_services (cats : list string) : list (string * json) :=
  map (fun c => (c, JObj [])) cats.

(** The dict [__init__] builds for a new store. *)
Definition default_db : json := JObj [("categories", JObj (empty_services default_categories))].

(** A database of the old layout: one service under the legacy name ["1"]. *)
Definition legacy_db : json :=
  JObj [("categories",
         JObj [("1", JObj [("mail", mk_record "alice" "pw" (JArr []))])])].

(** Dict keys are unique (a Python dict, also one built by [json.loads]). *)
Fixpoint keys_unique {V} (l : list (string * V)) : bool :=
  match l with
  | [] => true
  | (k, _) :: rest => negb (assoc_mem k rest) && keys_unique rest
  end.

(** The category mapping of a database. *)
Definition db_categories (pw : json) : option (list (string * json)) :=
  match pw with
  | JObj kvs =>
      match assoc_lookup "categories" kvs with
      | Some (JObj cats) => Some cats
      | _ => None
      end
  | _ => None
  end.

(** A well-formed database: ["categories"] maps category names to dicts
    of service records, each record a dict. *)
Definition is_obj (j : json) : bool :=
  match j with JObj _ => true | _ => false end.

Definition wf_services (j : json) : bool :=
  match j with
  | JObj l => forallb (fun kv => is_obj (snd kv)) l
  | _ => false
  end.

Definition wf_db (pw : json) : bool :=
  match db_categories pw with
  | Some cats => keys_unique cats && forallb (fun kv => wf_services (snd kv)) cats
  | None => false
  end.

(** The services of category [c]. *)
Definition db_services (pw : json) (c : string) : option (list (string * json)) :=
  match db_categories pw with
  | Some cats =>
      match assoc_lookup c cats with
      | Some (JObj sv) => Some sv
      | _ => None
      end
  | None => None
  end.

(** The record of the pair [(c, svc)]. *)
Definition db_lookup (pw : json) (c svc : string) : option json :=
  match db_services pw c with
  | Some sv => assoc_lookup svc sv
  | None => None
  end.

(** The database with the record of [(c, svc)] replaced by [v]. *)
Definition db_set (pw : json) (c svc : string) (v : json) : json :=
  match pw with
  | JObj kvs =>
      match assoc_lookup "categories" kvs with
      | Some (JObj cats) =>
          match assoc_lookup c cats with
          | Some (JObj sv) =>
              JObj (assoc_set "categories"
                      (JObj (assoc_set c (JObj (assoc_set svc v sv)) cats)) kvs)
          | _ => pw
          end
      | _ => pw
      end
  | _ => pw
  end.

(** The category whose record [update] replaces: the given category when
    it is a non-empty string and holds the service, otherwise (no category,
    or [""]) the first category in order that holds the service. *)
Definition update_target (category : option string) (service : string) (pw : json)
  : option string :=
  match db_categories pw with
  | None => None
  | Some cats =>
      if opt_truthy category then
        match db_lookup pw (opt_str category) service with
        | Some _ => Some (opt_str category)
        | None => None
        end
      else option_map fst (find (fun cs => match snd cs with
                                           | JObj sv => assoc_mem service sv
                                           | _ => false
                                           end) cats)
  end.

(** The tag list of a record, [[]] when it has none. *)
Definition record_tags_or_empty (rec : option json) : json :=
  match rec with
  | Some (JObj r) => match assoc_lookup "tags" r with Some t => t | None => JArr [] end
  | _ => JArr []
  end.

(** The record [update] writes: new username and password, the given tags,
    or the old tags when none are given. *)
Definition updated_record (username password : string) (tags : option (list string))
  (old : option json) : json :=
  mk_record username password
    (match tags with Some t => tags_json t | None => record_tags_or_empty old end).

(** A blob whose ["categories"] is a list, not a mapping. *)
Definition list_categories_db : json := JObj [("categories", JArr [])].

(** A blob whose ["categories"] is a number. *)
Definition number_categories_db : json := JObj [("categories", JNum 5)].

(** The category names of a database, in order. *)
Definition cat_keys (pw : json) : option (list string) :=
  match pw with
  | JObj kvs =>
      match assoc_lookup "categories" kvs with
      | Some (JObj cs) => Some (map fst cs)
      | _ => None
      end
  | _ => None
  end.


(** A new store at [blob_path] with the default categories. *)
Definition default_store : @store unit := mk_store default_db [] blob_path tt 0.

(** One service ["x"] in ["Internet"], tagged ["a"]. *)
Definition tagged_db : json :=
  JObj [("categories",
         JObj [("Internet", JObj [("x", mk_record "u" "p" (tags_json ["a"]))])])].

(** The strings of a list value. *)
Definition str_items (xs : list json) : list string :=
  flat_map (fun x => match x with JStr t => [t] | _ => [] end) xs.

Definition is_str (j : json) : bool :=
  match j with JStr _ => true | _ => false end.

(** The tag list of a record, [[]] when it has none. *)
Definition record_tag_list (rec : json) : list string :=
  match rec with
  | JObj r => match assoc_lookup "tags" r with Some (JArr xs) => str_items xs | _ => [] end
  | _ => []
  end.

(** A record is a dict whose ["tags"], when present, is a list of strings. *)
Definition wf_record (rec : json) : bool :=
  match rec with
  | JObj r =>
      match assoc_lookup "tags" r with
      | None => true
      | Some (JArr xs) => forallb is_str xs
      | Some _ => false
      end
  | _ => false
  end.

Definition wf_category (cs : string * json) : bool :=
  match snd cs with
  | JObj sv => forallb (fun kv => wf_record (snd kv)) sv
  | _ => false
  end.

(** Every category is a dict of well-formed records. *)
Definition wf_tagged_db (pw : json) : bool :=
  match db_categories pw with
  | Some cats => forallb wf_category cats
  | None => false
  end.

(** The categories a search looks at: the given one when the filter is a
    non-empty string (none if it does not exist), otherwise all of them. *)
Definition search_scope (category : option string) (pw : json) : list (string * json) :=
  match db_categories pw with
  | None => []
  | Some cats =>
      if opt_truthy category then
        match assoc_lookup (opt_str category) cats with
        | Some v => [(opt_str category, v)]
        | None => []
        end
      else cats
  end.

(** The (service, record) pairs in scope, in iteration order. *)
Definition scope_records (category : option string) (pw : json) : list (string * json) :=
  flat_map (fun cs => match snd cs with JObj sv => sv | _ => [] end)
           (search_scope category pw).

(** A record matches: the keyword is a case-insensitive substring of the
    service name, and, for a non-empty tag filter, the tag is
    case-insensitively equal to one of the record's tags. *)
Definition record_matches (keyword : string) (tag : option string) (service : string)
  (rec : json) : bool :=
  str_contains (py_lower keyword) (py_lower service) &&
  (if opt_truthy tag
   then existsb (fun t => String.eqb (py_lower (opt_str tag)) (py_lower t)) (record_tag_list rec)
   else true).

Definition match_step (keyword : string) (tag : option string) (service : string)
  (acc : option json) (kv : string * json) : option json :=
  if String.eqb (fst kv) service && record_matches keyword tag (fst kv) (snd kv)
  then Some (snd kv) else acc.

(** The last record in scope under [service] that matches. *)
Definition last_match (keyword : string) (tag : option string) (service : string)
  (recs : list (string * json)) : option json :=
  fold_left (match_step keyword tag service) recs None.

(** One untagged record ["mail"] in ["Internet"]. *)
Definition untagged_db : json :=
  JObj [("categories",
         JObj [("Internet", JObj [("mail", mk_record "alice" "pw" (JArr []))])])].


(** ** Further engine functions *)

(** The loop over all categories of [get_password]. *)
Fixpoint get_scan (service : string) (items : list (string * json)) : res (option json) :=
  match items with
  | [] => Ok None
  | (cat, services) :: rest =>
      b <- py_contains services service ;;
      if b then r <- py_getitem services service ;; Ok (Some r)
      else get_scan service rest
  end.

(** [get_password(service, category)]: [None] is [Ok None]. *)
Definition get_password (service : string) (category : option string) (pw : json)
  : res (option json) :=
  if opt_truthy category then
    let cat := opt_str category in
    cs <- py_getitem pw "categories" ;;
    b1 <- py_contains cs cat ;;
    if b1 then
      cv <- py_getitem cs cat ;;
      b2 <- py_contains cv service ;;
      if b2 then r <- py_getitem cv service ;; Ok (Some r)
      else Ok None
    else Ok None
  else
    cs <- py_getitem pw "categories" ;;
    items <- py_items cs ;;
    get_scan service items.

(** [get_categories]: [list(self.passwords["categories"].keys())]. *)
Definition get_categories (pw : json) : res (list string) :=
  cs <- py_getitem pw "categories" ;;
  match cs with
  | JObj kvs => Ok (map fst kvs)
  | _ => Err AttributeError
  end.

(** [load_key] on the key path [kp], where [gen] is the key
    [Fernet.generate_key()] would return.  The [os.chmod] that follows the
    write changes permission bits only, which [fs_t] does not track, and its
    exceptions are swallowed. *)
Definition load_key (gen : bytes) (kp : string) (fs : fs_t) : res bytes * fs_t :=
  let '(r, fs1) := makedirs fs (dirname kp) in
  match r with
  | Err e => (Err e, fs1)
  | Ok _ =>
      if path_exists fs1 kp then (open_rb fs1 kp, fs1)
      else
        let '(r', tr) := fs_run [OpenWB kp; WriteAll kp gen] fs1 in
        match r' with
        | Ok _ => (Ok gen, last tr fs1)
        | Err e => (Err e, last tr fs1)
        end
  end.

(** [string.ascii_letters], [string.digits], [string.punctuation]. *)
Definition ascii_letters : string :=
  "abcdefghijklmnopqrstuvwxyzABCDEFGHIJKLMNOPQRSTUVWXYZ".
Definition digits : string := "0123456789".
Definition punctuation : string :=
  string_of_list_ascii (map ascii_of_nat (seq 33 15 ++ seq 58 7 ++ seq 91 6 ++ seq 123 4)).

Definition characters : string := (ascii_letters ++ digits ++ punctuation)%string.

(** [secrets.choice(seq)] is [seq[randbelow(len(seq))]]; [r] is the value
    [randbelow] returned. *)
Definition choice (r : nat) (sq : string) : option ascii := String.get r sq.

(** The loop of [generate_password]: [n] more characters, the next one
    from the [i]-th call of [randbelow], whose value is [draw i]. *)
Fixpoint gen_chars (draw : nat -> nat) (i n : nat) : option string :=
  match n with
  | O => Some ""
  | S n' =>
      match choice (draw i) characters with
      | None => None
      | Some c => match gen_chars draw (S i) n' with
                  | None => None
                  | Some rest => Some (String c rest)
                  end
      end
  end.

(** [generate_password(length)]: [range(length)] is empty for
    [length <= 0]. *)
Definition generate_password (draw : nat -> nat) (length : Z) : option string :=
  gen_chars draw 0 (Z.to_nat length).

(** A row of [export_passwords]: the dict passed to [writer.writerow]. *)
Definition csv_dict := list (string * json).

(** The dict of [writer.writerow] for one record; [creds['username']] and
    [creds['password']] raise before the row is written. *)
Definition export_record (category : string) (sc : string * json) : res csv_dict :=
  u <- py_getitem (snd sc) "username" ;;
  p <- py_getitem (snd sc) "password" ;;
  Ok [("category", JStr category); ("service", JStr (fst sc)); ("username", u);
      ("password", p)].

(** [for service, creds in services.items()]; [out] is what is written so
    far. *)
Fixpoint write_services (category : string) (services : list (string * json))
  (out : list csv_dict) : res unit * list csv_dict :=
  match services with
  | [] => (Ok tt, out)
  | sc :: rest =>
      match export_record category sc with
      | Err e => (Err e, out)
      | Ok d => write_services category rest (out ++ [d])
      end
  end.

(** [for category, services in self.passwords["categories"].items()] *)
Fixpoint write_categories (cats : list (string * json)) (out : list csv_dict)
  : res unit * list csv_dict :=
  match cats with
  | [] => (Ok tt, out)
  | (category, services) :: rest =>
      match py_items services with
      | Err e => (Err e, out)
      | Ok items =>
          let '(r, out') := write_services category items out in
          match r with
          | Ok _ => write_categories rest out'
          | Err e => (Err e, out')
          end
      end
  end.

(** [export_passwords(csv_file)]: the result and the rows of the file after
    its header line.  [can_open] is whether [open(csv_file, 'w',
    newline='')] succeeds.  An exception is caught and gives [False]; the
    rows written before it stay in the file. *)
Definition export_passwords (can_open : bool) (pw : json) : bool * list csv_dict :=
  if can_open then
    match py_getitem pw "categories" with
    | Err _ => (false, [])
    | Ok cs =>
        match py_items cs with
        | Err _ => (false, [])
        | Ok cats =>
            let '(r, out) := write_categories cats [] in
            (match r with Ok _ => true | Err _ => false end, out)
        end
    end
  else (false, []).

(** [str.isspace] on one ASCII character. *)
Definition py_isspace (c : ascii) : bool :=
  let n := nat_of_ascii c in
  (Nat.leb 9 n && Nat.leb n 13) || (Nat.leb 28 n && Nat.leb n 32).

Fixpoint drop_space (l : list ascii) : list ascii :=
  match l with
  | c :: rest => if py_isspace c then drop_space rest else l
  | [] => []
  end.

(** [str.strip()] *)
Definition py_strip (s : string) : string :=
  string_of_list_ascii (rev (drop_space (rev (drop_space (list_ascii_of_string s))))).

(** [str.split(',')] *)
Fixpoint py_split_comma (s : string) : list string :=
  match s with
  | EmptyString => [""]
  | String c rest =>
      let parts := py_split_comma rest in
      if Ascii.eqb c ","%char then "" :: parts
      else match parts with
           | p :: ps => String c p :: ps
           | [] => [String c ""]
           end
  end.

(** The tag list [PasswordManagerGUI.add_password] and [update_password]
    build from the tags field:
    [[tag.strip() for tag in tags.split(',') if tag.strip()]] when [tags] is
    non-empty, else [[]]. *)
Definition parse_tags (tags : string) : list string :=
  if negb (String.eqb tags "") then
    map py_strip (filter (fun t => negb (String.eqb (py_strip t) "")) (py_split_comma tags))
  else [].

(** The database with the record of [(c, svc)] deleted. *)
Definition db_del (pw : json) (c svc : string) : json :=
  match pw with
  | JObj kvs =>
      match assoc_lookup "categories" kvs with
      | Some (JObj cats) =>
          match assoc_lookup c cats with
          | Some (JObj sv) =>
              JObj (assoc_set "categories"
                      (JObj (assoc_set c (JObj (assoc_del svc sv)) cats)) kvs)
          | _ => pw
          end
      | _ => pw
      end
  | _ => pw
  end.

(** The record [add_password] stores: tags [[]] when none are given. *)
Definition added_record (username password : string) (tags : option (list string)) : json :=
  mk_record username password (tags_json (match tags with Some t => t | None => [] end)).

(** The store over [tagged_db] at [blob_path]. *)
Definition tagged_store : @store unit := mk_store tagged_db [] blob_path tt 0.

(** The key path of [load_key] for the home directory [/home/alice]. *)
Definition key_file : string := "/home/alice/.passmanager/secret.key".

(** The header [writer.writeheader()] writes. *)
Definition export_fieldnames : list string := ["category"; "service"; "username"; "password"].

(** Every category's services have distinct names (a Python dict). *)
Definition services_unique (pw : json) : bool :=
  match db_categories pw with
  | Some cats => forallb (fun kv => match snd kv with
                                    | JObj sv => keys_unique sv
                                    | _ => false
                                    end) cats
  | None => false
  end.

(** The records of a category mapping as [(category, service)] and record,
    in the order [export_passwords] visits them. *)
Definition export_entries (cats : list (string * json)) : list ((string * string) * json) :=
  flat_map (fun cv => match snd cv with
                      | JObj sv => map (fun sr => ((fst cv, fst sr), snd sr)) sv
                      | _ => []
                      end) cats.


(** The dict [writer.writerow] gets for a record
    [((category, service), (username, password))] whose username and
    password are strings. *)
Definition written_row (t : (string * string) * (string * string)) : csv_dict :=
  [("category", JStr (fst (fst t))); ("service", JStr (snd (fst t)));
   ("username", JStr (fst (snd t))); ("password", JStr (snd (snd t)))].

(** That row read back by [csv.reader]: the values in header order. *)
Definition written_record (t : (string * string) * (string * string)) : csv_record :=
  [fst (fst t); snd (fst t); fst (snd t); snd (snd t)].

(** Whether the pair [k] is [(c, svc)]. *)
Definition key_is (c svc : string) (k : string * string) : bool :=
  String.eqb (fst k) c && String.eqb (snd k) svc.

(** The exported record behind a row read back as strings. *)
Definition exported_as (e : (string * string) * json) (t : (string * string) * (string * string))
  : Prop :=
  fst e = fst t /\ exists rr, snd e = JObj rr /\
    assoc_lookup "username" rr = Some (JStr (fst (snd t))) /\
    assoc_lookup "password" rr = Some (JStr (snd (snd t))).

(** * Properties *)

Ltac destruct_score_conds p :=
  destruct (Nat.ltb (String.length p) 8); [|destruct (Nat.leb 12 (String.length p))];
  destruct (has_upper p); destruct (has_lower p); destruct (has_digit p);
  destruct (has_special p); destruct (has_common_pattern p).

(** The score is the additive sum of the code's weights. *)
Lemma password_score_sum (p : string) :
  password_score p =
    ((if Nat.ltb (String.length p) 8 then 0
      else if Nat.leb 12 (String.length p) then 25 else 10)
     + (if has_upper p then 10 else 0) + (if has_lower p then 10 else 0)
     + (if has_digit p then 10 else 0) + (if has_special p then 15 else 0)
     - (if has_common_pattern p then 20 else 0))%Z.
Proof.
  unfold password_score, check_password_strength.
  destruct_score_conds p; cbn -[strength_tier];
    destruct (strength_tier _); reflexivity.
Qed.

(** The colour and the head of the message are those of the score's tier. *)
Lemma check_password_strength_tier (p : string) :
  snd (check_password_strength p) = snd (strength_tier (password_score p)) /\
  String.prefix (fst (strength_tier (password_score p)))
                (snd (fst (check_password_strength p))) = true.
Proof.
  assert (Hpre : forall a b, String.prefix a (a ++ b)%string = true).
  { induction a as [|c a IH]; intros b; [destruct b; reflexivity|].
    simpl. destruct (ascii_dec c c) as [_|n]; [apply IH|congruence]. }
  assert (Happ : forall a, (a ++ "")%string = a).
  { induction a as [|c a IH]; [reflexivity|simpl; rewrite IH; reflexivity]. }
  unfold password_score, check_password_strength.
  destruct_score_conds p; cbn -[strength_tier String.concat String.append];
    destruct (strength_tier _) as [st col]; cbn -[String.concat String.append];
    (split; [reflexivity|]);
    first [ apply Hpre | rewrite <- (Happ st) at 2; apply Hpre ].
Qed.

(** C9: the strength score is monotone: a password [q] at least as long as
    [p], having every character class [p] has, and containing a common
    pattern exactly when [p] does, scores at least as much as [p]. *)
Theorem password_score_monotone (p q : string) :
  String.length p <= String.length q ->
  (has_upper p = true -> has_upper q = true) ->
  (has_lower p = true -> has_lower q = true) ->
  (has_digit p = true -> has_digit q = true) ->
  (has_special p = true -> has_special q = true) ->
  has_common_pattern q = has_common_pattern p ->
  (password_score p <= password_score q)%Z.
Proof.
  intros Hlen Hu Hl Hd Hs Hc.
  rewrite !password_score_sum, Hc.
  assert (Hlp : ((if Nat.ltb (String.length p) 8 then 0
                  else if Nat.leb 12 (String.length p) then 25 else 10)
                 <= (if Nat.ltb (String.length q) 8 then 0
                     else if Nat.leb 12 (String.length q) then 25 else 10))%Z).
  { destruct (Nat.ltb_spec (String.length p) 8);
    destruct (Nat.ltb_spec (String.length q) 8);
    destruct (Nat.leb_spec 12 (String.length p));
    destruct (Nat.leb_spec 12 (String.length q)); lia. }
  destruct (has_upper p), (has_upper q); [| specialize (Hu eq_refl); discriminate | |];
  destruct (has_lower p), (has_lower q); try (specialize (Hl eq_refl); discriminate);
  destruct (has_digit p), (has_digit q); try (specialize (Hd eq_refl); discriminate);
  destruct (has_special p), (has_special q); try (specialize (Hs eq_refl); discriminate);
  lia.
Qed.


(** ** Dict lemmas *)

Section Assoc.
Context {V : Type}.
Implicit Types (kvs : list (string * V)) (k : string) (v : V).

Lemma assoc_mem_lookup k kvs :
  assoc_mem k kvs = match assoc_lookup k kvs with Some _ => true | None => false end.
Proof.
  induction kvs as [|[k' v'] rest IH]; [reflexivity|].
  unfold assoc_mem in *; simpl. destruct (String.eqb k k'); [reflexivity|exact IH].
Qed.

Lemma assoc_lookup_set_same k v kvs : assoc_lookup k (assoc_set k v kvs) = Some v.
Proof.
  unfold assoc_set. destruct (assoc_mem k kvs) eqn:Hm.
  - induction kvs as [|[k' v'] rest IH]; [discriminate|].
    unfold assoc_mem in *; simpl in *.
    destruct (String.eqb k k') eqn:E; simpl.
    + rewrite String.eqb_refl. reflexivity.
    + rewrite E. apply IH. exact Hm.
  - induction kvs as [|[k' v'] rest IH]; simpl.
    + rewrite String.eqb_refl. reflexivity.
    + unfold assoc_mem in *; simpl in Hm.
      destruct (String.eqb k k'); [discriminate|]. apply IH. exact Hm.
Qed.

Lemma assoc_lookup_set_other k k' v kvs :
  k' <> k -> assoc_lookup k' (assoc_set k v kvs) = assoc_lookup k' kvs.
Proof.
  intros Hne. unfold assoc_set. destruct (assoc_mem k kvs).
  - induction kvs as [|[k0 v0] rest IH]; [reflexivity|]. simpl.
    destruct (String.eqb k k0) eqn:E; simpl.
    + apply String.eqb_eq in E. subst k0.
      apply String.eqb_neq in Hne. rewrite Hne. exact IH.
    + rewrite IH. reflexivity.
  - induction kvs as [|[k0 v0] rest IH]; simpl.
    + apply String.eqb_neq in Hne. rewrite Hne. reflexivity.
    + rewrite IH. reflexivity.
Qed.

Lemma assoc_mem_set k k' v kvs :
  assoc_mem k' (assoc_set k v kvs) = String.eqb k' k || assoc_mem k' kvs.
Proof.
  rewrite !assoc_mem_lookup.
  destruct (String.eqb_spec k' k) as [->|Hne].
  - rewrite assoc_lookup_set_same. reflexivity.
  - rewrite assoc_lookup_set_other by exact Hne. reflexivity.
Qed.

Lemma assoc_set_keys k v kvs :
  assoc_mem k kvs = true -> map fst (assoc_set k v kvs) = map fst kvs.
Proof.
  intros Hm. unfold assoc_set. rewrite Hm.
  rewrite map_map. apply map_ext. intros [k0 v0]; simpl.
  destruct (String.eqb_spec k k0); simpl; congruence.
Qed.

Lemma assoc_set_new k v kvs :
  assoc_mem k kvs = false -> assoc_set k v kvs = kvs ++ [(k, v)].
Proof. intros Hm. unfold assoc_set. rewrite Hm. reflexivity. Qed.

Lemma assoc_lookup_app_new k v kvs :
  assoc_mem k kvs = false -> assoc_lookup k (kvs ++ [(k, v)]) = Some v.
Proof.
  induction kvs as [|[k0 v0] rest IH]; intros Hm; simpl.
  - rewrite String.eqb_refl. reflexivity.
  - unfold assoc_mem in Hm. simpl in Hm.
    destruct (String.eqb k k0); [discriminate|]. apply IH. exact Hm.
Qed.

Lemma assoc_set_app_last k v v' kvs :
  assoc_mem k kvs = false -> assoc_set k v' (kvs ++ [(k, v)]) = kvs ++ [(k, v')].
Proof.
  intros Hm. unfold assoc_set.
  rewrite assoc_mem_lookup, assoc_lookup_app_new by exact Hm.
  rewrite map_app. simpl. rewrite String.eqb_refl. f_equal.
  induction kvs as [|[k0 v0] rest IH]; [reflexivity|].
  unfold assoc_mem in Hm. simpl in Hm |- *.
  destruct (String.eqb k k0); [discriminate|]. rewrite IH by exact Hm. reflexivity.
Qed.

Lemma assoc_lookup_del_same k kvs : assoc_lookup k (assoc_del k kvs) = None.
Proof.
  induction kvs as [|[k0 v0] rest IH]; [reflexivity|]. simpl.
  destruct (String.eqb k k0) eqn:E; simpl; [exact IH|]. rewrite E. exact IH.
Qed.

Lemma assoc_lookup_del_other k k' kvs :
  k' <> k -> assoc_lookup k' (assoc_del k kvs) = assoc_lookup k' kvs.
Proof.
  intros Hne. induction kvs as [|[k0 v0] rest IH]; [reflexivity|]. simpl.
  destruct (String.eqb k k0) eqn:E; simpl.
  - apply String.eqb_eq in E. subst k0. apply String.eqb_neq in Hne.
    rewrite Hne. exact IH.
  - rewrite IH. reflexivity.
Qed.

Lemma assoc_mem_del k k' kvs :
  assoc_mem k' (assoc_del k kvs) = negb (String.eqb k' k) && assoc_mem k' kvs.
Proof.
  rewrite !assoc_mem_lookup.
  destruct (String.eqb_spec k' k) as [->|Hne].
  - rewrite assoc_lookup_del_same. reflexivity.
  - rewrite assoc_lookup_del_other by exact Hne. reflexivity.
Qed.

End Assoc.

(** ** File-system lemmas *)

Lemma only_new_dirs_refl fs : only_new_dirs fs fs.
Proof. intros p. left. reflexivity. Qed.

Lemma only_new_dirs_trans fs1 fs2 fs3 :
  only_new_dirs fs1 fs2 -> only_new_dirs fs2 fs3 -> only_new_dirs fs1 fs3.
Proof.
  intros H12 H23 p.
  destruct (H12 p) as [E1|[E1 E1']]; destruct (H23 p) as [E2|[E2 E2']];
    first [left; congruence | right; split; congruence].
Qed.

Lemma only_new_dirs_dir fs fs' p :
  only_new_dirs fs fs' -> assoc_lookup p fs = Some Dir -> assoc_lookup p fs' = Some Dir.
Proof. intros H E. destruct (H p) as [E'|[E' _]]; congruence. Qed.

Lemma only_new_dirs_set_dir fs c :
  assoc_lookup c fs = None -> only_new_dirs fs (assoc_set c Dir fs).
Proof.
  intros Hc p. destruct (String.eqb_spec p c) as [->|Hne].
  - right. split; [exact Hc|apply assoc_lookup_set_same].
  - left. apply assoc_lookup_set_other. exact Hne.
Qed.

Lemma mkdirs_from_grows fs d comps r fs' :
  mkdirs_from fs d comps = (r, fs') -> only_new_dirs fs fs'.
Proof.
  revert fs. induction comps as [|c rest IH]; intros fs H; simpl in H.
  - injection H as _ <-. apply only_new_dirs_refl.
  - destruct (root_like c); [exact (IH fs H)|].
    destruct (assoc_lookup c fs) as [[data|]|] eqn:Ec.
    + injection H as _ <-. apply only_new_dirs_refl.
    + exact (IH fs H).
    + eapply only_new_dirs_trans;
        [apply only_new_dirs_set_dir; exact Ec|exact (IH _ H)].
Qed.

Lemma mkdirs_from_ok_dirs fs d comps fs' :
  mkdirs_from fs d comps = (Ok tt, fs') ->
  forall c, In c comps -> root_like c = true \/ assoc_lookup c fs' = Some Dir.
Proof.
  revert fs. induction comps as [|c0 rest IH]; intros fs H c Hin; [destruct Hin|].
  simpl in H. destruct Hin as [->|Hin].
  - destruct (root_like c) eqn:Er; [left; reflexivity|right].
    destruct (assoc_lookup c fs) as [[data|]|] eqn:Ec.
    + discriminate H.
    + exact (only_new_dirs_dir _ _ _ (mkdirs_from_grows _ _ _ _ _ H) Ec).
    + apply (only_new_dirs_dir _ _ _ (mkdirs_from_grows _ _ _ _ _ H)).
      apply assoc_lookup_set_same.
  - destruct (root_like c0); [exact (IH _ H c Hin)|].
    destruct (assoc_lookup c0 fs) as [[data|]|];
      [discriminate H|exact (IH _ H c Hin)|exact (IH _ H c Hin)].
Qed.

Lemma mkdirs_from_noop fs d comps :
  (forall c, In c comps -> root_like c = true \/ assoc_lookup c fs = Some Dir) ->
  mkdirs_from fs d comps = (Ok tt, fs).
Proof.
  induction comps as [|c rest IH]; intros H; [reflexivity|]. simpl.
  assert (H' : forall c', In c' rest ->
                 root_like c' = true \/ assoc_lookup c' fs = Some Dir)
    by (intros c' Hc'; apply H; right; exact Hc').
  destruct (H c (or_introl eq_refl)) as [E|E].
  - rewrite E. apply IH. exact H'.
  - destruct (root_like c); [|rewrite E]; apply IH; exact H'.
Qed.

Lemma makedirs_grows fs d r fs' : makedirs fs d = (r, fs') -> only_new_dirs fs fs'.
Proof.
  unfold makedirs. destruct (String.eqb d "").
  - intros H. injection H as _ <-. apply only_new_dirs_refl.
  - apply mkdirs_from_grows.
Qed.

Lemma makedirs_ok_ready fs d fs' :
  makedirs fs d = (Ok tt, fs') ->
  d <> "" /\
  (forall c, In c (d :: ancestors d) -> root_like c = true \/ assoc_lookup c fs' = Some Dir).
Proof.
  unfold makedirs. destruct (String.eqb_spec d "") as [_|Hd]; [discriminate|].
  intros H. split; [exact Hd|]. intros c Hc.
  apply (mkdirs_from_ok_dirs _ _ _ _ H). apply -> in_rev. exact Hc.
Qed.

Lemma makedirs_ready fs d :
  d <> "" ->
  (forall c, In c (d :: ancestors d) -> root_like c = true \/ assoc_lookup c fs = Some Dir) ->
  makedirs fs d = (Ok tt, fs).
Proof.
  intros Hd Hc. unfold makedirs. destruct (String.eqb_spec d "") as [|_]; [contradiction|].
  apply mkdirs_from_noop. intros c Hin. apply Hc. apply <- in_rev. exact Hin.
Qed.

Lemma ancestors_fuel_shorter n p a :
  In a (ancestors_fuel n p) -> String.length a < String.length p.
Proof.
  revert p. induction n as [|n IH]; intros p H; [destruct H|]. simpl in H.
  destruct (negb (String.eqb (dirname p) "") &&
            Nat.ltb (String.length (dirname p)) (String.length p)) eqn:E; [|destruct H].
  apply andb_prop in E. destruct E as [_ E]. apply Nat.ltb_lt in E.
  destruct H as [<-|H]; [exact E|]. specialize (IH _ H). lia.
Qed.

Lemma ancestors_not_self p : ~ In p (ancestors p).
Proof. intros H. apply ancestors_fuel_shorter in H. lia. Qed.

Lemma walk_dirs_ext fs fs' ds :
  (forall d, In d ds -> root_like d = false -> assoc_lookup d fs' = assoc_lookup d fs) ->
  walk_dirs fs' ds = walk_dirs fs ds.
Proof.
  induction ds as [|d rest IH]; intros H; [reflexivity|]. simpl.
  assert (H' : forall d', In d' rest -> root_like d' = false ->
                 assoc_lookup d' fs' = assoc_lookup d' fs)
    by (intros d' Hd' Er; apply H; [right; exact Hd'|exact Er]).
  destruct (root_like d) eqn:Er; [apply IH; exact H'|].
  rewrite (H d (or_introl eq_refl) Er).
  destruct (assoc_lookup d fs) as [[]|]; try reflexivity. apply IH. exact H'.
Qed.

Lemma walk_set_self fs p v : walk (assoc_set p v fs) p = walk fs p.
Proof.
  unfold walk. apply walk_dirs_ext. intros d Hd _.
  apply assoc_lookup_set_other. intros ->.
  apply <- in_rev in Hd. exact (ancestors_not_self _ Hd).
Qed.

Lemma walk_dirs_grow fs fs' ds :
  only_new_dirs fs fs' -> walk_dirs fs ds = Ok tt -> walk_dirs fs' ds = Ok tt.
Proof.
  intros G. induction ds as [|d rest IH]; intros H; [reflexivity|]. simpl in *.
  destruct (root_like d); [exact (IH H)|].
  destruct (assoc_lookup d fs) as [[]|] eqn:E; try discriminate.
  rewrite (only_new_dirs_dir _ _ _ G E). exact (IH H).
Qed.

Lemma open_wb_ok fs p fs' :
  open_wb fs p = Ok fs' ->
  fs' = assoc_set p (File []) fs /\ p <> "" /\ walk fs p = Ok tt /\
  root_like p = false /\ assoc_lookup p fs <> Some Dir.
Proof.
  unfold open_wb. destruct (String.eqb_spec p "") as [|Hp]; [discriminate|].
  destruct (walk fs p) as [[]|e] eqn:Ew; [|discriminate].
  destruct (root_like p) eqn:Er; [discriminate|].
  destruct (assoc_lookup p fs) as [[]|] eqn:El; intros H; try discriminate;
    injection H as <-; (split; [reflexivity|]); repeat split; try assumption; discriminate.
Qed.

Lemma open_wb_ready fs p :
  p <> "" -> walk fs p = Ok tt -> root_like p = false -> assoc_lookup p fs <> Some Dir ->
  open_wb fs p = Ok (assoc_set p (File []) fs).
Proof.
  intros Hp Hw Hr Hl. unfold open_wb.
  destruct (String.eqb_spec p "") as [|_]; [contradiction|]. rewrite Hw, Hr.
  destruct (assoc_lookup p fs) as [[]|]; [reflexivity|congruence|reflexivity].
Qed.

Lemma path_exists_file fs p x :
  p <> "" -> walk fs p = Ok tt -> assoc_lookup p fs = Some (File x) ->
  path_exists fs p = true.
Proof.
  intros Hp Hw Hl. unfold path_exists.
  destruct (String.eqb_spec p "") as [|_]; [contradiction|]. rewrite Hw, Hl.
  apply orb_true_r.
Qed.

Lemma open_rb_file fs p x :
  p <> "" -> walk fs p = Ok tt -> root_like p = false -> assoc_lookup p fs = Some (File x) ->
  open_rb fs p = Ok x.
Proof.
  intros Hp Hw Hr Hl. unfold open_rb.
  destruct (String.eqb_spec p "") as [|_]; [contradiction|]. rewrite Hw, Hr, Hl.
  reflexivity.
Qed.

Lemma open_rb_ok fs p x :
  open_rb fs p = Ok x ->
  p <> "" /\ walk fs p = Ok tt /\ root_like p = false /\ assoc_lookup p fs = Some (File x).
Proof.
  unfold open_rb. destruct (String.eqb_spec p "") as [|Hp]; [discriminate|].
  destruct (walk fs p) as [[]|e] eqn:Ew; [|discriminate].
  destruct (root_like p) eqn:Er; [discriminate|].
  destruct (assoc_lookup p fs) as [[]|] eqn:El; intros H; try discriminate.
  injection H as <-. repeat split; assumption.
Qed.

Lemma path_exists_false_none fs p :
  path_exists fs p = false -> p <> "" -> walk fs p = Ok tt -> assoc_lookup p fs = None.
Proof.
  unfold path_exists. destruct (String.eqb_spec p "") as [|_]; [intros _ H; contradiction|].
  intros He _ Hw. rewrite Hw in He. cbn [negb andb] in He.
  apply orb_false_elim in He as [_ He].
  destruct (assoc_lookup p fs); [discriminate|reflexivity].
Qed.

Lemma dir_chain_set (l : list string) fs q v :
  (forall c, In c l -> root_like c = true \/ assoc_lookup c fs = Some Dir) ->
  assoc_lookup q fs <> Some Dir ->
  forall c, In c l -> root_like c = true \/ assoc_lookup c (assoc_set q v fs) = Some Dir.
Proof.
  intros Hc Hq c Hin. destruct (Hc c Hin) as [E|E]; [left; exact E|right].
  destruct (String.eqb_spec c q) as [->|Hne]; [congruence|].
  rewrite assoc_lookup_set_other by exact Hne. exact E.
Qed.

Lemma fs_run_save p d fs :
  fs_run (save_ops p d) fs =
    let '(r1, fs1) := makedirs fs (dirname p) in
    match r1 with
    | Err e => (Err e, [fs1])
    | Ok _ =>
        match open_wb fs1 p with
        | Err e => (Err e, [fs1; fs1])
        | Ok fs2 => (Ok tt, [fs1; fs2; assoc_set p (File d) fs2])
        end
    end.
Proof.
  unfold save_ops. cbn [fs_run fs_step].
  destruct (makedirs fs (dirname p)) as [[u|e] fs1]; [|reflexivity].
  destruct (open_wb fs1 p); reflexivity.
Qed.

Lemma save_outcome_eq p fs :
  save_outcome p fs =
    match makedirs fs (dirname p) with
    | (Err e, _) => Err e
    | (Ok _, fs1) => match open_wb fs1 p with Err e => Err e | Ok _ => Ok tt end
    end.
Proof.
  unfold save_outcome. rewrite fs_run_save.
  destruct (makedirs fs (dirname p)) as [[u|e] fs1]; [destruct (open_wb fs1 p)|];
    reflexivity.
Qed.

Lemma fs_run_save_outcome p d fs : fst (fs_run (save_ops p d) fs) = save_outcome p fs.
Proof.
  unfold save_outcome. rewrite !fs_run_save.
  destruct (makedirs fs (dirname p)) as [[u|e] fs1]; [destruct (open_wb fs1 p)|];
    reflexivity.
Qed.

Lemma save_ready_run p d fs :
  save_ready p fs ->
  fs_run (save_ops p d) fs =
    (Ok tt, [fs; assoc_set p (File []) fs; assoc_set p (File d) (assoc_set p (File []) fs)]).
Proof.
  intros (Hd & Hc & Hp & Hw & Hr & Hl).
  rewrite fs_run_save, (makedirs_ready fs (dirname p) Hd Hc). cbn.
  rewrite open_wb_ready by assumption. reflexivity.
Qed.

Lemma save_ready_ok p fs : save_ready p fs -> save_outcome p fs = Ok tt.
Proof. intros H. unfold save_outcome. rewrite (save_ready_run p [] fs H). reflexivity. Qed.

Lemma save_ok_inv p fs :
  save_outcome p fs = Ok tt ->
  exists fs1, only_new_dirs fs fs1 /\ save_ready p fs1 /\
    (forall d, fs_run (save_ops p d) fs =
       (Ok tt, [fs1; assoc_set p (File []) fs1;
                assoc_set p (File d) (assoc_set p (File []) fs1)])).
Proof.
  rewrite save_outcome_eq.
  destruct (makedirs fs (dirname p)) as [[u|e] fs1] eqn:Em; [|discriminate].
  destruct (open_wb fs1 p) as [fs2|e] eqn:Eo; [|discriminate]. intros _.
  destruct u. apply open_wb_ok in Eo as (-> & Hp & Hw & Hr & Hl).
  destruct (makedirs_ok_ready _ _ _ Em) as [Hd Hc].
  exists fs1. split; [exact (makedirs_grows _ _ _ _ Em)|].
  assert (R : save_ready p fs1) by (repeat split; assumption).
  split; [exact R|]. intros d. rewrite fs_run_save, Em. cbn.
  rewrite open_wb_ready by assumption. reflexivity.
Qed.

Lemma save_ready_set p fs x :
  save_ready p fs -> save_ready p (assoc_set p (File x) fs).
Proof.
  intros (Hd & Hc & Hp & Hw & Hr & Hl).
  split; [exact Hd|]. split; [|split; [exact Hp|split; [|split; [exact Hr|]]]].
  - exact (dir_chain_set _ _ _ _ Hc Hl).
  - rewrite walk_set_self. exact Hw.
  - rewrite assoc_lookup_set_same. discriminate.
Qed.

(** After a save that completes, the path holds the data, reads back, and
    the next save is ready. *)
Lemma save_ready_saved p d fs :
  save_ready p fs ->
  let fs' := assoc_set p (File d) (assoc_set p (File []) fs) in
  save_ready p fs' /\ assoc_lookup p fs' = Some (File d) /\
  path_exists fs' p = true /\ open_rb fs' p = Ok d.
Proof.
  intros R fs'.
  assert (R' : save_ready p fs') by (apply save_ready_set, save_ready_set, R).
  assert (L : assoc_lookup p fs' = Some (File d)) by apply assoc_lookup_set_same.
  destruct R' as (Hd & Hc & Hp & Hw & Hr & Hl).
  split; [repeat split; assumption|]. split; [exact L|]. split.
  - exact (path_exists_file _ _ _ Hp Hw L).
  - exact (open_rb_file _ _ _ Hp Hw Hr L).
Qed.

Section Codec.
Context {Key : Type} (C : codec Key).

(** The outcome of [save_passwords] is that of [save_outcome] on the
    path and the file system before the save; the file system after it is
    the last state reached. *)
Lemma save_passwords_result (s : store) :
  save_passwords C s =
    (save_outcome (file_path s) (files s),
     mk_store (passwords s) (last (snd (save_run C s)) (files s))
       (file_path s) (key s) (S (nonce s))).
Proof.
  unfold save_passwords. rewrite <- (fs_run_save_outcome _ (encrypted_data C s)).
  unfold save_run. destruct (fs_run _ _). reflexivity.
Qed.

(** A save that completes leaves the new token at the path, with the
    directories created on the way. *)
Lemma save_passwords_ok (s : store) :
  save_outcome (file_path s) (files s) = Ok tt ->
  exists fs1, only_new_dirs (files s) fs1 /\ save_ready (file_path s) fs1 /\
    save_passwords C s =
      (Ok tt, mk_store (passwords s)
                (assoc_set (file_path s) (File (encrypted_data C s))
                   (assoc_set (file_path s) (File []) fs1))
                (file_path s) (key s) (S (nonce s))).
Proof.
  intros Hok. destruct (save_ok_inv _ _ Hok) as (fs1 & G & R & Hrun).
  exists fs1. split; [exact G|]. split; [exact R|].
  rewrite save_passwords_result, Hok. unfold save_run. rewrite Hrun. reflexivity.
Qed.

(** On a file system ready for it, the save changes nothing but the
    path. *)
Lemma save_passwords_ready (s : store) :
  save_ready (file_path s) (files s) ->
  save_passwords C s =
    (Ok tt, mk_store (passwords s)
              (assoc_set (file_path s) (File (encrypted_data C s))
                 (assoc_set (file_path s) (File []) (files s)))
              (file_path s) (key s) (S (nonce s))).
Proof.
  intros R. rewrite save_passwords_result, (save_ready_ok _ _ R).
  unfold save_run. rewrite (save_ready_run _ _ _ R). reflexivity.
Qed.

(** After a save that completes, the next save to the same path is
    ready. *)
Lemma save_passwords_ok_ready (s s1 : store) :
  save_passwords C s = (Ok tt, s1) ->
  save_ready (file_path s1) (files s1) /\ passwords s1 = passwords s /\
  file_path s1 = file_path s /\ key s1 = key s.
Proof.
  intros H. rewrite save_passwords_result in H. injection H as Hok <-.
  destruct (save_ok_inv _ _ Hok) as (fs1 & _ & R & Hrun).
  cbn [files file_path passwords key]. unfold save_run. rewrite Hrun. cbn [snd last].
  destruct (save_ready_saved _ (encrypted_data C s) _ R) as (R' & _).
  split; [exact R'|]. repeat split.
Qed.

(** C1: saving a database and loading the same path back with the same
    key gives the database back, given the round-trip laws of Fernet and
    of UTF-8 and that [json.loads] inverts [json.dumps] on it. *)
Theorem save_load_roundtrip (s s' t : store) :
  (forall k n b, fernet_decrypt C k (fernet_encrypt C k n b) = Some b) ->
  (forall txt, utf8_decode C (utf8_encode C txt) = Some txt) ->
  json_loads C (json_dumps C (passwords s)) = Some (passwords s) ->
  save_passwords C s = (Ok tt, s') ->
  files t = files s' -> file_path t = file_path s -> key t = key s ->
  load_passwords_res C t = Ok (passwords s).
Proof.
  intros Hf Hu Hj Hsave Hfiles Hpath Hkey.
  rewrite save_passwords_result in Hsave. injection Hsave as Hok Hs'. subst s'.
  destruct (save_ok_inv _ _ Hok) as (fs1 & _ & R & Hrun).
  destruct (save_ready_saved _ (encrypted_data C s) _ R) as (_ & _ & Pe & Or).
  unfold load_passwords_res. rewrite Hfiles, Hpath, Hkey. cbn [files].
  unfold save_run. rewrite Hrun. cbn [snd last]. rewrite Pe, Or.
  unfold encrypted_data. rewrite Hf, Hu, Hj. reflexivity.
Qed.

(** Amended C3: [save_passwords] writes the live file in place.  Whenever
    the save goes through, the file system passes through a state where
    the blob path holds an empty file (after [open(path, 'wb')]) before it
    holds the new token; no other path is written, apart from the missing
    parent directories [os.makedirs] creates. *)
Theorem save_truncates_in_place (s : store) :
  save_outcome (file_path s) (files s) = Ok tt ->
  exists trace,
    save_run C s = (Ok tt, trace) /\
    (exists mid, In mid trace /\ assoc_lookup (file_path s) mid = Some (File [])) /\
    assoc_lookup (file_path s) (files (snd (save_passwords C s)))
      = Some (File (encrypted_data C s)) /\
    (forall p fs, p <> file_path s -> In fs trace ->
       assoc_lookup p fs = assoc_lookup p (files s) \/
       (assoc_lookup p (files s) = None /\ assoc_lookup p fs = Some Dir)).
Proof.
  intros Hok. destruct (save_ok_inv _ _ Hok) as (fs1 & G & R & Hrun).
  unfold save_run. rewrite Hrun.
  eexists. split; [reflexivity|]. split; [|split].
  - exists (assoc_set (file_path s) (File []) fs1). split.
    + simpl. auto.
    + apply assoc_lookup_set_same.
  - rewrite save_passwords_result. cbn [snd files].
    unfold save_run. rewrite Hrun. simpl. apply assoc_lookup_set_same.
  - intros p fs Hp Hin.
    assert (E : assoc_lookup p fs = assoc_lookup p fs1).
    { simpl in Hin. destruct Hin as [<-|[<-|[<-|[]]]]; [reflexivity| |];
        rewrite ?assoc_lookup_set_other by exact Hp; reflexivity. }
    rewrite E. exact (G p).
Qed.

End Codec.

(** ** Witnesses and counterexamples for the codec *)

Lemma save_load_roundtrip_witness :
  fst (save_passwords (ref_codec [default_db]) (mk_store default_db [] blob_path tt 0)) = Ok tt /\
  load_passwords_res (ref_codec [default_db])
    (snd (save_passwords (ref_codec [default_db]) (mk_store default_db [] blob_path tt 0)))
  = Ok default_db.
Proof.
  split; [vm_compute; reflexivity|].
  apply (save_load_roundtrip (ref_codec [default_db])
           (mk_store default_db [] blob_path tt 0)
           (snd (save_passwords (ref_codec [default_db]) (mk_store default_db [] blob_path tt 0)))).
  - intros k n b. reflexivity.
  - intros txt. simpl. rewrite string_of_list_byte_of_string. reflexivity.
  - vm_compute. reflexivity.
  - vm_compute. reflexivity.
  - reflexivity.
  - reflexivity.
  - reflexivity.
Defined.

Lemma save_truncates_in_place_witness :
  save_outcome blob_path (blob_fs (ref_blob default_db)) = Ok tt /\
  exists trace,
    save_run (ref_codec [default_db])
      (mk_store default_db (blob_fs (ref_blob default_db)) blob_path tt 0)
      = (Ok tt, trace) /\
    (exists mid, In mid trace /\ assoc_lookup blob_path mid = Some (File [])) /\
    assoc_lookup blob_path
      (files (snd (save_passwords (ref_codec [default_db])
                     (mk_store default_db (blob_fs (ref_blob default_db)) blob_path tt 0))))
      = Some (File (encrypted_data (ref_codec [default_db])
                      (mk_store default_db (blob_fs (ref_blob default_db)) blob_path tt 0))) /\
    (forall p fs, p <> blob_path -> In fs trace ->
       assoc_lookup p fs = assoc_lookup p (blob_fs (ref_blob default_db)) \/
       (assoc_lookup p (blob_fs (ref_blob default_db)) = None /\
        assoc_lookup p fs = Some Dir)).
Proof.
  assert (Hok : save_outcome blob_path (blob_fs (ref_blob default_db)) = Ok tt)
    by (vm_compute; reflexivity).
  split; [exact Hok|].
  exact (save_truncates_in_place (ref_codec [default_db])
           (mk_store default_db (blob_fs (ref_blob default_db)) blob_path tt 0) Hok).
Defined.

(** C3 fails: a blob that decrypts to a valid database is, during the next
    save, replaced by an empty file before the new token is written. *)
Lemma save_passes_through_empty_file :
  load_passwords_res (ref_codec [default_db])
    (mk_store JNull (blob_fs (ref_blob default_db)) blob_path tt 0) = Ok default_db /\
  exists mid,
    In mid (snd (save_run (ref_codec [default_db])
                  (mk_store default_db (blob_fs (ref_blob default_db)) blob_path tt 0))) /\
    assoc_lookup blob_path mid = Some (File []).
Proof.
  split; [vm_compute; reflexivity|].
  exists (assoc_set blob_path (File []) (blob_fs (ref_blob default_db))).
  split; [vm_compute; right; left; reflexivity|vm_compute; reflexivity].
Qed.

(** ** Witnesses for the strength score *)

Lemma password_score_monotone_witness :
  String.length "abc" <= String.length "Abcdefgh1!" /\
  has_common_pattern "Abcdefgh1!" = has_common_pattern "abc" /\
  (password_score "abc" <= password_score "Abcdefgh1!")%Z.
Proof.
  split; [simpl; lia|]. split; [reflexivity|].
  apply (password_score_monotone "abc" "Abcdefgh1!").
  - simpl. lia.
  - intros _. reflexivity.
  - intros _. reflexivity.
  - intros _. reflexivity.
  - intros _. reflexivity.
  - reflexivity.
Defined.


(** ** Lemmas on the Python operators *)

Lemma bind_ok_inv {A B} (r : res A) (k : A -> res B) (b : B) :
  res_bind r k = Ok b -> exists a, r = Ok a /\ k a = Ok b.
Proof. destruct r as [a|e]; simpl; [eauto|discriminate]. Qed.

Ltac inv_bind H :=
  let a := fresh "a" in let Ha := fresh "Hr" in
  apply bind_ok_inv in H; destruct H as [a [Ha H]].

Lemma getitem_inv j k v :
  py_getitem j k = Ok v -> exists kvs, j = JObj kvs /\ assoc_lookup k kvs = Some v.
Proof.
  destruct j; simpl; try discriminate.
  destruct (assoc_lookup k kvs) eqn:E; intros H; [injection H as <-; eauto|discriminate].
Qed.

Lemma setitem_inv j k v j' :
  py_setitem j k v = Ok j' -> exists kvs, j = JObj kvs /\ j' = JObj (assoc_set k v kvs).
Proof. destruct j; simpl; try discriminate. intros H; injection H as <-. eauto. Qed.

Lemma getitem_setitem j k v j' :
  py_setitem j k v = Ok j' -> py_getitem j' k = Ok v.
Proof.
  intros H. apply setitem_inv in H as [kvs [-> ->]]. simpl.
  rewrite assoc_lookup_set_same. reflexivity.
Qed.

Lemma getitem_setitem_other j k k' v j' :
  k' <> k -> py_setitem j k v = Ok j' -> py_getitem j' k' = py_getitem j k'.
Proof.
  intros Hne H. apply setitem_inv in H as [kvs [-> ->]]. simpl.
  rewrite assoc_lookup_set_other by exact Hne. reflexivity.
Qed.

Lemma lookup_mem {V} k (kvs : list (string * V)) v :
  assoc_lookup k kvs = Some v -> assoc_mem k kvs = true.
Proof. intros H. rewrite assoc_mem_lookup, H. reflexivity. Qed.

(** [j[k1][k2] = v] *)
Lemma setitem2_inv j k1 k2 v j' :
  setitem2 j k1 k2 v = Ok j' ->
  exists kvs l, j = JObj kvs /\ assoc_lookup k1 kvs = Some (JObj l) /\
    j' = JObj (assoc_set k1 (JObj (assoc_set k2 v l)) kvs).
Proof.
  unfold setitem2. intros H.
  inv_bind H. inv_bind H.
  apply setitem_inv in Hr0 as [l [-> ->]].
  apply getitem_inv in Hr as [kvs [-> Hl]].
  apply setitem_inv in H as [kvs' [Heq ->]]. injection Heq as <-.
  exists kvs, l. auto.
Qed.

(** [j[k1][k2][k3] = v] *)
Lemma setitem3_inv j k1 k2 k3 v j' :
  setitem3 j k1 k2 k3 v = Ok j' ->
  exists kvs l cv, j = JObj kvs /\ assoc_lookup k1 kvs = Some (JObj l) /\
    assoc_lookup k2 l = Some (JObj cv) /\
    j' = JObj (assoc_set k1 (JObj (assoc_set k2 (JObj (assoc_set k3 v cv)) l)) kvs).
Proof.
  unfold setitem3. intros H.
  inv_bind H. inv_bind H.
  apply setitem2_inv in Hr0 as [l [cv [-> [Hcv ->]]]].
  apply getitem_inv in Hr as [kvs [-> Hl]].
  apply setitem_inv in H as [kvs' [Heq ->]]. injection Heq as <-.
  exists kvs, l, cv. auto.
Qed.

Lemma getitem_det j k v v' : py_getitem j k = Ok v -> py_getitem j k = Ok v' -> v = v'.
Proof. intros H1 H2. rewrite H1 in H2. injection H2 as ->. reflexivity. Qed.

(** ** Migration *)

Lemma ensure_category_spec pw c pw' :
  ensure_category pw c = Ok pw' ->
  exists cs cs', py_getitem pw "categories" = Ok cs /\
    py_getitem pw' "categories" = Ok cs' /\
    py_contains cs' c = Ok true /\
    (forall k, k <> c -> py_contains cs' k = py_contains cs k).
Proof.
  unfold ensure_category. intros H.
  inv_bind H. inv_bind H.
  exists a. destruct a0.
  - injection H as <-. exists a. auto.
  - apply setitem2_inv in H as [kvs [l [-> [Hl ->]]]].
    simpl in Hr. rewrite Hl in Hr. injection Hr as <-.
    exists (JObj (assoc_set c (JObj []) l)). split; [simpl; rewrite Hl; reflexivity|]. split.
    + simpl. rewrite assoc_lookup_set_same. reflexivity.
    + split.
      * simpl. rewrite assoc_mem_set, String.eqb_refl. reflexivity.
      * intros k Hk. simpl. rewrite assoc_mem_set.
        apply String.eqb_neq in Hk. rewrite Hk. reflexivity.
Qed.

Lemma ensure_fold_spec ds : forall pw pw' cs,
  py_getitem pw "categories" = Ok cs ->
  res_fold ensure_category pw ds = Ok pw' ->
  exists cs', py_getitem pw' "categories" = Ok cs' /\
    (forall d, In d ds -> py_contains cs' d = Ok true) /\
    (forall k, ~ In k ds -> py_contains cs' k = py_contains cs k).
Proof.
  induction ds as [|d rest IH]; intros pw pw' cs Hcs H.
  - simpl in H. injection H as <-. exists cs. split; [exact Hcs|].
    split; [intros d []|reflexivity].
  - simpl in H. inv_bind H.
    apply ensure_category_spec in Hr as [cs0 [cs1 [H0 [H1 [Hc Ho]]]]].
    rewrite Hcs in H0. injection H0 as <-.
    destruct (IH _ _ _ H1 H) as [cs' [H' [Hin Hout]]].
    exists cs'. split; [exact H'|]. split.
    + intros d' [<-|Hd'].
      * destruct (in_dec String.string_dec d rest) as [Hr|Hr].
        -- apply Hin; exact Hr.
        -- rewrite Hout by exact Hr. exact Hc.
      * apply Hin. exact Hd'.
    + intros k Hk. rewrite Hout by (intros Hr; apply Hk; right; exact Hr).
      apply Ho. intros ->. apply Hk. left. reflexivity.
Qed.

Lemma copy_services_keys nc items : forall pw pw1 l,
  py_getitem pw "categories" = Ok (JObj l) ->
  copy_services pw nc items = Ok pw1 ->
  exists l1, py_getitem pw1 "categories" = Ok (JObj l1) /\
    (forall k, assoc_mem k l1 = assoc_mem k l).
Proof.
  unfold copy_services.
  induction items as [|[svc d] rest IH]; intros pw pw1 l Hl H.
  - simpl in H. injection H as <-. exists l. auto.
  - simpl in H. inv_bind H.
    apply setitem3_inv in Hr as [kvs [l0 [cv [-> [Hl0 [Hcv ->]]]]]].
    simpl in Hl. rewrite Hl0 in Hl. injection Hl as <-.
    assert (Hg : py_getitem (JObj (assoc_set "categories"
                   (JObj (assoc_set nc (JObj (assoc_set svc d cv)) l0)) kvs)) "categories"
                 = Ok (JObj (assoc_set nc (JObj (assoc_set svc d cv)) l0)))
      by (unfold py_getitem; rewrite assoc_lookup_set_same; reflexivity).
    destruct (IH _ _ _ Hg H) as [l1 [H1 Hk]].
    exists l1. split; [exact H1|]. intros k. rewrite Hk, assoc_mem_set.
      destruct (String.eqb_spec k nc) as [->|]; [|reflexivity].
      symmetry. apply (lookup_mem _ _ _ Hcv).
Qed.

Lemma move_legacy_spec pw i o pw' :
  i < length default_categories ->
  move_legacy pw i o = Ok pw' ->
  exists cs cs', py_getitem pw "categories" = Ok cs /\
    py_getitem pw' "categories" = Ok cs' /\
    py_contains cs' o = Ok false /\
    (forall k, k <> o -> py_contains cs' k = py_contains cs k).
Proof.
  intros Hi. unfold move_legacy. intros H.
  inv_bind H. inv_bind H.
  exists a. apply Nat.ltb_lt in Hi. destruct a0.
  - rewrite Hi in H. simpl in H.
    inv_bind H. inv_bind H. inv_bind H. inv_bind H. inv_bind H.
    apply getitem_inv in Hr1 as [l [-> _]].
    destruct (copy_services_keys _ _ _ _ _ Hr Hr3) as [l1 [Hl1 Hk]].
    rewrite Hl1 in Hr4. injection Hr4 as <-.
    simpl in Hr5. injection Hr5 as <-.
    exists (JObj (assoc_del o l1)). split; [exact Hr|]. split.
    + apply (getitem_setitem _ _ _ _ H).
    + split.
      * simpl. rewrite assoc_mem_del, String.eqb_refl. reflexivity.
      * intros k Hko. simpl. rewrite assoc_mem_del, Hk.
        apply String.eqb_neq in Hko. rewrite Hko. reflexivity.
  - injection H as <-. exists a. auto.
Qed.

Lemma move_fold_spec olds : forall i pw pw' cs,
  py_getitem pw "categories" = Ok cs ->
  i + length olds <= length default_categories ->
  move_all_legacy pw i olds = Ok pw' ->
  exists cs', py_getitem pw' "categories" = Ok cs' /\
    (forall o, In o olds -> py_contains cs' o = Ok false) /\
    (forall k, ~ In k olds -> py_contains cs' k = py_contains cs k).
Proof.
  induction olds as [|o rest IH]; intros i pw pw' cs Hcs Hlen H.
  - simpl in H. injection H as <-. exists cs. split; [exact Hcs|].
    split; [intros o []|reflexivity].
  - simpl in H. inv_bind H. simpl in Hlen.
    change (length default_categories) with 7 in *.
    apply move_legacy_spec in Hr as [cs0 [cs1 [H0 [H1 [Hc Ho]]]]];
      [|change (length default_categories) with 7; lia].
    rewrite Hcs in H0. injection H0 as <-.
    destruct (IH (S i) _ _ _ H1 ltac:(change (length default_categories) with 7; lia) H)
      as [cs' [H' [Hin Hout]]].
    exists cs'. split; [exact H'|]. split.
    + intros o' [<-|Ho'].
      * destruct (in_dec String.string_dec o rest) as [Hr|Hr].
        -- apply Hin; exact Hr.
        -- rewrite Hout by exact Hr. exact Hc.
      * apply Hin. exact Ho'.
    + intros k Hk. rewrite Hout by (intros Hr; apply Hk; right; exact Hr).
      apply Ho. intros ->. apply Hk. left. reflexivity.
Qed.

(** After [migrate_pure], every default name is [in] the categories and no
    legacy name is; names of neither list answer as before. *)
Lemma migrate_pure_spec pw pw1 :
  migrate_pure pw = Ok pw1 ->
  exists cs cs1, py_getitem pw "categories" = Ok cs /\
    py_getitem pw1 "categories" = Ok cs1 /\
    (forall d, In d default_categories -> py_contains cs1 d = Ok true) /\
    (forall o, In o old_categories -> py_contains cs1 o = Ok false) /\
    (forall k, ~ In k default_categories -> ~ In k old_categories ->
       py_contains cs1 k = py_contains cs k).
Proof.
  unfold migrate_pure. intros H. inv_bind H.
  destruct (py_getitem pw "categories") as [cs|e] eqn:G.
  2:{ simpl in Hr. unfold ensure_category in Hr. rewrite G in Hr. discriminate. }
  destruct (ensure_fold_spec _ _ _ _ G Hr) as [cs2 [G2 [Hd2 Ho2]]].
  destruct (move_fold_spec old_categories 0 _ _ _ G2 ltac:(simpl; lia) H) as [cs1 [G1 [Hd1 Ho1]]].
  exists cs, cs1. split; [reflexivity|]. split; [exact G1|]. split; [|split].
  - intros d Hd. rewrite Ho1.
    + apply Hd2. exact Hd.
    + intros Ho. simpl in Hd, Ho.
      repeat (destruct Hd as [<-|Hd]; [repeat (destruct Ho as [Ho|Ho]; [discriminate Ho|]); exact Ho|]).
      exact Hd.
  - exact Hd1.
  - intros k Hkd Hko. rewrite Ho1 by exact Hko. apply Ho2. exact Hkd.
Qed.

Lemma ensure_fold_noop ds pw cs :
  py_getitem pw "categories" = Ok cs ->
  (forall d, In d ds -> py_contains cs d = Ok true) ->
  res_fold ensure_category pw ds = Ok pw.
Proof.
  intros G Hd. induction ds as [|d rest IH]; [reflexivity|].
  simpl. unfold ensure_category at 1. rewrite G. simpl.
  rewrite (Hd d (or_introl eq_refl)). simpl.
  apply IH. intros d' Hd'. apply Hd. right. exact Hd'.
Qed.

Lemma move_fold_noop olds i pw cs :
  py_getitem pw "categories" = Ok cs ->
  (forall o, In o olds -> py_contains cs o = Ok false) ->
  move_all_legacy pw i olds = Ok pw.
Proof.
  intros G Ho. revert i. induction olds as [|o rest IH]; intros i; [reflexivity|].
  simpl. unfold move_legacy at 1. rewrite G. simpl.
  rewrite (Ho o (or_introl eq_refl)). simpl.
  apply IH. intros o' Ho'. apply Ho. right. exact Ho'.
Qed.

Lemma any_contains_false pw cs ks :
  py_getitem pw "categories" = Ok cs ->
  (forall o, In o ks -> py_contains cs o = Ok false) ->
  any_contains pw ks = Ok false.
Proof.
  intros G Ho. induction ks as [|k rest IH]; [reflexivity|].
  simpl. rewrite G. simpl. rewrite (Ho k (or_introl eq_refl)). simpl.
  apply IH. intros o' Ho'. apply Ho. right. exact Ho'.
Qed.

Lemma migrate_pure_fixed pw pw1 :
  migrate_pure pw = Ok pw1 -> migrate_pure pw1 = Ok pw1.
Proof.
  intros H. destruct (migrate_pure_spec _ _ H) as [cs [cs1 [_ [G1 [Hd [Ho _]]]]]].
  unfold migrate_pure. rewrite (ensure_fold_noop _ _ _ G1 Hd). simpl.
  apply (move_fold_noop _ _ _ _ G1 Ho).
Qed.

Section Migration.
Context {Key : Type} (C : codec Key).

Local Ltac unfold_monad :=
  unfold mbind, mlift, mret, get_passwords, set_passwords in *.

(** C7: migration is idempotent.  [migrate_categories]'s dict mutations
    reach a fixed point in one application, so running [migrate_categories]
    a second time leaves the database as the first run left it; the
    migration step of
    [__init__] ([check_and_migrate_categories]), run again on the state it
    produced, changes nothing (the database, the files and the nonce are the
    same); and when no legacy name is in the categories it changes
    nothing. *)
Theorem migration_idempotent :
  (forall pw pw1, migrate_pure pw = Ok pw1 -> migrate_pure pw1 = Ok pw1) /\
  (forall (s s1 : @store Key),
     migrate_categories C s = (Ok tt, s1) ->
     exists s2, migrate_categories C s1 = (Ok tt, s2) /\ passwords s2 = passwords s1) /\
  (forall (s s1 : @store Key),
     check_and_migrate_categories C s = (Ok tt, s1) ->
     check_and_migrate_categories C s1 = (Ok tt, s1)) /\
  (forall (s : @store Key),
     any_contains (passwords s) old_categories = Ok false ->
     check_and_migrate_categories C s = (Ok tt, s)).
Proof.
  split; [exact migrate_pure_fixed|]. split; [|split].
  - intros s s1 H. unfold migrate_categories in *. unfold_monad.
    cbv beta iota zeta in H.
    destruct (migrate_pure (passwords s)) as [pw1|e] eqn:Em; [|discriminate].
    cbv beta iota zeta in H.
    destruct (save_passwords_ok_ready C _ _ H) as (R & Hp & _). cbn [passwords] in Hp.
    cbv beta iota zeta. rewrite Hp, (migrate_pure_fixed _ _ Em). cbv beta iota zeta.
    rewrite save_passwords_ready by exact R.
    eexists. split; reflexivity.
  - intros s s1 H.
    unfold check_and_migrate_categories in *. unfold_monad.
    destruct (any_contains (passwords s) old_categories) as [[|]|e] eqn:E;
      [|injection H as <-; rewrite E; reflexivity|discriminate].
    unfold migrate_categories in H. unfold_monad.
    destruct (migrate_pure (passwords s)) as [pw1|e] eqn:Em; [|discriminate].
    cbv beta iota zeta in H.
    destruct (save_passwords_ok_ready C _ _ H) as (_ & Hp & _). cbn [passwords] in Hp.
    destruct (migrate_pure_spec _ _ Em) as [cs [cs1 [_ [G1 [_ [Ho _]]]]]].
    cbv beta iota zeta. rewrite Hp, (any_contains_false _ _ _ G1 Ho). reflexivity.
  - intros s E. unfold check_and_migrate_categories. unfold_monad.
    rewrite E. reflexivity.
Qed.

End Migration.

Lemma migration_idempotent_witness :
  exists pw1, migrate_pure legacy_db = Ok pw1 /\ migrate_pure pw1 = Ok pw1.
Proof.
  destruct (migrate_pure legacy_db) as [pw1|e] eqn:E; [|discriminate E].
  exists pw1. split; [reflexivity|].
  exact (proj1 (migration_idempotent (ref_codec [])) legacy_db pw1 E).
Defined.

(** ** Store initialization *)

Lemma init_fold kvs l ds :
  assoc_mem "categories" kvs = false ->
  res_fold (fun pw c => setitem2 pw "categories" c (JObj []))
    (JObj (kvs ++ [("categories", JObj l)])) ds =
  Ok (JObj (kvs ++ [("categories",
              JObj (fold_left (fun l c => assoc_set c (JObj []) l) ds l))])).
Proof.
  intros Hm. revert l. induction ds as [|c rest IH]; intros l; [reflexivity|].
  simpl. unfold setitem2. simpl.
  rewrite assoc_lookup_app_new by exact Hm. simpl.
  rewrite assoc_set_app_last by exact Hm. apply IH.
Qed.

Lemma init_categories_new kvs :
  assoc_mem "categories" kvs = false ->
  init_categories (JObj kvs) =
    Ok (JObj (kvs ++ [("categories", JObj (empty_services default_categories))])).
Proof.
  intros Hm. unfold init_categories. cbn [py_setitem res_bind].
  rewrite assoc_set_new by exact Hm. rewrite init_fold by exact Hm. reflexivity.
Qed.

Lemma empty_services_no_legacy o :
  In o old_categories ->
  py_contains (JObj (empty_services default_categories)) o = Ok false.
Proof. intros Ho. simpl in Ho. repeat (destruct Ho as [<-|Ho]; [reflexivity|]). destruct Ho. Qed.

Section Init.
Context {Key : Type} (C : codec Key).

Lemma init_store_load_err (s : store) e :
  load_passwords_res C s = Err e -> init_store C s = (Err e, s).
Proof. intros H. unfold init_store, mbind, load_passwords. rewrite H. reflexivity. Qed.

(** Amended C2: what [__init__] does with each outcome of reading the
    blob.  No file ([os.path.exists] false): [load_passwords] returns [{}].
    A path that exists but does not open for reading raises the error of
    [open]; a token that does not decrypt, a plaintext that is not UTF-8 and
    a plaintext that is not JSON each raise their own exception; in all
    these cases the object and the files are left as they were.  A JSON
    value is not checked to be a category mapping: an object whose
    ["categories"] value contains none of the legacy names is taken as it
    is, a number, boolean or null ["categories"] raises [TypeError] (from
    [old_cat in self.passwords["categories"]]), and an object without
    ["categories"] gets the default categories, each empty, and is saved,
    [__init__] then succeeding or failing as the save does. *)
Theorem init_store_load_outcomes :
  (forall s : @store Key, path_exists (files s) (file_path s) = false ->
     load_passwords_res C s = Ok (JObj [])) /\
  (forall (s : @store Key) e, path_exists (files s) (file_path s) = true ->
     open_rb (files s) (file_path s) = Err e ->
     init_store C s = (Err e, s)) /\
  (forall (s : @store Key) b, path_exists (files s) (file_path s) = true ->
     open_rb (files s) (file_path s) = Ok b ->
     fernet_decrypt C (key s) b = None ->
     init_store C s = (Err InvalidToken, s)) /\
  (forall (s : @store Key) b p, path_exists (files s) (file_path s) = true ->
     open_rb (files s) (file_path s) = Ok b ->
     fernet_decrypt C (key s) b = Some p -> utf8_decode C p = None ->
     init_store C s = (Err UnicodeDecodeError, s)) /\
  (forall (s : @store Key) b p txt, path_exists (files s) (file_path s) = true ->
     open_rb (files s) (file_path s) = Ok b ->
     fernet_decrypt C (key s) b = Some p -> utf8_decode C p = Some txt ->
     json_loads C txt = None ->
     init_store C s = (Err JSONDecodeError, s)) /\
  (forall (s : @store Key) kvs cs, load_passwords_res C s = Ok (JObj kvs) ->
     assoc_lookup "categories" kvs = Some cs ->
     (forall o, In o old_categories -> py_contains cs o = Ok false) ->
     init_store C s = (Ok tt, mk_store (JObj kvs) (files s) (file_path s) (key s) (nonce s))) /\
  (forall (s : @store Key) kvs cs, load_passwords_res C s = Ok (JObj kvs) ->
     assoc_lookup "categories" kvs = Some cs ->
     (cs = JNull \/ (exists b, cs = JBool b) \/ (exists n, cs = JNum n)) ->
     init_store C s =
       (Err TypeError, mk_store (JObj kvs) (files s) (file_path s) (key s) (nonce s))) /\
  (forall (s : @store Key) kvs, load_passwords_res C s = Ok (JObj kvs) ->
     assoc_mem "categories" kvs = false ->
     exists s', init_store C s = (save_outcome (file_path s) (files s), s') /\
       passwords s' = JObj (kvs ++ [("categories", JObj (empty_services default_categories))])).
Proof.
  split; [|split; [|split; [|split; [|split; [|split; [|split]]]]]].
  - intros s H. unfold load_passwords_res. rewrite H. reflexivity.
  - intros s e He Ho. apply init_store_load_err.
    unfold load_passwords_res. rewrite He, Ho. reflexivity.
  - intros s b He Hb Hd. apply init_store_load_err.
    unfold load_passwords_res. rewrite He, Hb, Hd. reflexivity.
  - intros s b p He Hb Hd Hu. apply init_store_load_err.
    unfold load_passwords_res. rewrite He, Hb, Hd, Hu. reflexivity.
  - intros s b p txt He Hb Hd Hu Hj. apply init_store_load_err.
    unfold load_passwords_res. rewrite He, Hb, Hd, Hu, Hj. reflexivity.
  - intros s kvs cs Hl Hc Ho.
    assert (Hm : assoc_mem "categories" kvs = true) by (rewrite assoc_mem_lookup, Hc; reflexivity).
    assert (Ha : any_contains (JObj kvs) old_categories = Ok false).
    { apply (any_contains_false _ cs); [|exact Ho]. unfold py_getitem. rewrite Hc. reflexivity. }
    unfold init_store, check_and_migrate_categories, mbind, mlift, mret,
      load_passwords, set_passwords, get_passwords.
    rewrite Hl. cbn [py_contains]. rewrite Hm. cbv beta iota zeta.
    cbn [passwords]. rewrite Ha. reflexivity.
  - intros s kvs cs Hl Hc Hcs.
    assert (Hm : assoc_mem "categories" kvs = true) by (rewrite assoc_mem_lookup, Hc; reflexivity).
    assert (Ha : any_contains (JObj kvs) old_categories = Err TypeError).
    { simpl. unfold py_getitem. rewrite Hc.
      destruct Hcs as [->|[[b ->]|[n ->]]]; reflexivity. }
    unfold init_store, check_and_migrate_categories, mbind, mlift, mret,
      load_passwords, set_passwords, get_passwords.
    rewrite Hl. cbn [py_contains]. rewrite Hm. cbv beta iota zeta.
    cbn [passwords]. rewrite Ha. reflexivity.
  - intros s kvs Hl Hm.
    unfold init_store, check_and_migrate_categories, mbind, mlift, mret,
      load_passwords, set_passwords, get_passwords.
    rewrite Hl. cbn [py_contains]. rewrite Hm. cbv beta iota zeta.
    rewrite init_categories_new by exact Hm. cbv beta iota zeta.
    rewrite save_passwords_result. cbn [file_path passwords files key nonce].
    assert (G : py_getitem (JObj (kvs ++ [("categories",
                   JObj (empty_services default_categories))])) "categories"
                = Ok (JObj (empty_services default_categories))).
    { unfold py_getitem. rewrite assoc_lookup_app_new by exact Hm. reflexivity. }
    destruct (save_outcome (file_path s) (files s)) as [[]|e].
    + cbv beta iota zeta. cbn [passwords].
      rewrite (any_contains_false _ _ _ G empty_services_no_legacy).
      eexists. split; reflexivity.
    + eexists. split; reflexivity.
Qed.

End Init.

(** The witness reads a blob that is not JSON, and one whose
    ["categories"] is a number. *)
Lemma init_store_load_outcomes_witness :
  init_store (ref_codec []) (fresh_store (blob_fs (ref_blob default_db))) =
    (Err JSONDecodeError, fresh_store (blob_fs (ref_blob default_db))) /\
  init_store (ref_codec [number_categories_db])
    (fresh_store (blob_fs (ref_blob number_categories_db))) =
    (Err TypeError, mk_store number_categories_db (blob_fs (ref_blob number_categories_db))
                      blob_path tt 0).
Proof.
  split.
  - apply (proj1 (proj2 (proj2 (proj2 (proj2 (init_store_load_outcomes (ref_codec [])))))))
      with (b := ref_blob default_db) (p := ref_blob default_db)
           (txt := string_of_list_byte (ref_blob default_db));
      vm_compute; reflexivity.
  - apply (proj1 (proj2 (proj2 (proj2 (proj2 (proj2 (proj2
             (init_store_load_outcomes (ref_codec [number_categories_db])))))))))
      with (cs := JNum 5).
    + vm_compute. reflexivity.
    + vm_compute. reflexivity.
    + right. right. exists 5%Z. reflexivity.
Defined.

(** C2 fails: a blob that decrypts to [{"categories": []}], which is not a
    category mapping, is loaded and initializes the store without any
    error. *)
Lemma init_accepts_non_mapping_categories :
  load_passwords_res (ref_codec [list_categories_db])
    (fresh_store (blob_fs (ref_blob list_categories_db))) = Ok list_categories_db /\
  wf_db list_categories_db = false /\
  init_store (ref_codec [list_categories_db])
    (fresh_store (blob_fs (ref_blob list_categories_db))) =
    (Ok tt, mk_store list_categories_db (blob_fs (ref_blob list_categories_db))
              blob_path tt 0).
Proof. split; [|split]; vm_compute; reflexivity. Qed.

(** ** Category names under the credential operations *)

Lemma in_assoc_mem {V} k (v : V) l : In (k, v) l -> assoc_mem k l = true.
Proof.
  unfold assoc_mem. intros H. apply existsb_exists. exists (k, v).
  split; [exact H|]. apply String.eqb_refl.
Qed.









Lemma assoc_mem_keys {V} k (l : list (string * V)) :
  assoc_mem k l = existsb (String.eqb k) (map fst l).
Proof. unfold assoc_mem. induction l as [|kv rest IH]; simpl; [reflexivity|]. rewrite IH. reflexivity. Qed.


Section Defaults.
Context {Key : Type} (C : codec Key).


Lemma init_store_without_categories (s : @store Key) kvs :
  load_passwords_res C s = Ok (JObj kvs) -> assoc_mem "categories" kvs = false ->
  init_store C s =
    mbind (save_passwords C) (fun _ => check_and_migrate_categories C)
      (mk_store (JObj (kvs ++ [("categories", JObj (empty_services default_categories))]))
         (files s) (file_path s) (key s) (nonce s)).
Proof.
  intros Hl Hm. unfold init_store, mbind, mlift, mret, load_passwords, set_passwords.
  rewrite Hl. cbn [py_contains]. rewrite Hm. cbv beta iota zeta.
  rewrite init_categories_new by exact Hm. reflexivity.
Qed.



End Defaults.



(** ** Update *)

Lemma assoc_lookup_In {V} k (v : V) l : assoc_lookup k l = Some v -> In (k, v) l.
Proof.
  induction l as [|[k0 v0] rest IH]; simpl; [discriminate|].
  destruct (String.eqb_spec k k0) as [->|_]; intros H.
  - injection H as ->. left. reflexivity.
  - right. exact (IH H).
Qed.

Lemma keys_unique_lookup {V} k (v : V) l :
  keys_unique l = true -> In (k, v) l -> assoc_lookup k l = Some v.
Proof.
  induction l as [|[k0 v0] rest IH]; simpl; intros U Hin; [destruct Hin|].
  apply andb_prop in U as [U1 U2]. destruct Hin as [E|Hin].
  - injection E as -> ->. rewrite String.eqb_refl. reflexivity.
  - destruct (String.eqb_spec k k0) as [->|_].
    + rewrite (in_assoc_mem _ _ _ Hin) in U1. discriminate.
    + exact (IH U2 Hin).
Qed.

Lemma wf_db_inv pw :
  wf_db pw = true ->
  exists kvs cats, pw = JObj kvs /\ assoc_lookup "categories" kvs = Some (JObj cats) /\
    keys_unique cats = true /\
    (forall c v, In (c, v) cats ->
       exists sv, v = JObj sv /\ forall svc r, In (svc, r) sv -> exists rr, r = JObj rr).
Proof.
  unfold wf_db, db_categories. destruct pw as [| | | | |kvs]; try discriminate.
  destruct (assoc_lookup "categories" kvs) as [[| | | | |cats]|] eqn:E; try discriminate.
  intros H. apply andb_prop in H as [U F]. exists kvs, cats. split; [reflexivity|].
  split; [exact E|]. split; [exact U|].
  intros c v Hin. rewrite forallb_forall in F. specialize (F _ Hin). simpl in F.
  destruct v as [| | | | |sv]; try discriminate. exists sv. split; [reflexivity|].
  cbn [wf_services] in F. intros svc r Hr. rewrite forallb_forall in F. specialize (F _ Hr). simpl in F.
  destruct r as [| | | | |rr]; try discriminate. eauto.
Qed.

Lemma kept_tags_obj tags rr :
  kept_tags tags (JObj rr) =
    Ok (match tags with
        | None => record_tags_or_empty (Some (JObj rr))
        | Some _ => JArr []
        end).
Proof.
  destruct tags; [reflexivity|]. simpl. rewrite assoc_mem_lookup.
  destruct (assoc_lookup "tags" rr); reflexivity.
Qed.

Lemma new_tags_kept u p tags rr :
  mk_record u p (new_tags tags (match tags with
                                | None => record_tags_or_empty (Some (JObj rr))
                                | Some _ => JArr []
                                end))
  = updated_record u p tags (Some (JObj rr)).
Proof. destruct tags; reflexivity. Qed.

Lemma update_scan_wf kvs cats svc u p tags items :
  assoc_lookup "categories" kvs = Some (JObj cats) ->
  keys_unique cats = true ->
  (forall c v, In (c, v) cats ->
     exists sv, v = JObj sv /\ forall svc r, In (svc, r) sv -> exists rr, r = JObj rr) ->
  (forall c v, In (c, v) items -> In (c, v) cats) ->
  update_scan (JObj kvs) svc u p tags items =
    match option_map fst (find (fun cs => match snd cs with
                                          | JObj sv => assoc_mem svc sv
                                          | _ => false
                                          end) items) with
    | None => Ok None
    | Some c => Ok (Some (db_set (JObj kvs) c svc
                            (updated_record u p tags (db_lookup (JObj kvs) c svc))))
    end.
Proof.
  intros Hc U Hw. induction items as [|[c v] rest IH]; intros Hin; [reflexivity|].
  destruct (Hw c v (Hin c v (or_introl eq_refl))) as [sv [-> Hr]].
  assert (Lc : assoc_lookup c cats = Some (JObj sv))
    by exact (keys_unique_lookup _ _ _ U (Hin c _ (or_introl eq_refl))).
  cbn [update_scan find snd py_contains res_bind].
  destruct (assoc_mem svc sv) eqn:M.
  - rewrite assoc_mem_lookup in M.
    destruct (assoc_lookup svc sv) as [r|] eqn:Ls; [|discriminate].
    destruct (Hr _ _ (assoc_lookup_In _ _ _ Ls)) as [rr ->].
    cbn [py_getitem res_bind]. rewrite Ls. cbn [res_bind]. rewrite kept_tags_obj.
    cbn [res_bind py_setitem option_map fst].
    unfold setitem2. cbn [py_getitem res_bind]. rewrite Hc. cbn [res_bind py_setitem].
    unfold db_set, db_lookup, db_services, db_categories. rewrite Hc, Lc, Ls.
    rewrite new_tags_kept. reflexivity.
  - apply IH. intros c' v' H'. apply Hin. right. exact H'.
Qed.

Lemma update_pure_wf svc u p cat tags pw :
  wf_db pw = true ->
  update_pure svc u p cat tags pw =
    match update_target cat svc pw with
    | None => Ok None
    | Some c => Ok (Some (db_set pw c svc (updated_record u p tags (db_lookup pw c svc))))
    end.
Proof.
  intros W. destruct (wf_db_inv _ W) as [kvs [cats [-> [Hc [U Hw]]]]].
  unfold update_pure, update_target. unfold db_categories at 1. rewrite Hc.
  destruct (opt_truthy cat).
  - cbn [py_getitem res_bind]. rewrite Hc. cbn [res_bind py_contains].
    rewrite assoc_mem_lookup. unfold db_lookup at 1, db_services, db_categories. rewrite Hc.
    destruct (assoc_lookup (opt_str cat) cats) as [v|] eqn:Lc; [|reflexivity].
    destruct (Hw _ _ (assoc_lookup_In _ _ _ Lc)) as [sv [-> Hr]].
    cbn [res_bind py_getitem]. rewrite Lc. cbn [res_bind py_contains].
    rewrite assoc_mem_lookup.
    destruct (assoc_lookup svc sv) as [r|] eqn:Ls; [|reflexivity].
    destruct (Hr _ _ (assoc_lookup_In _ _ _ Ls)) as [rr ->].
    cbn [res_bind py_getitem]. rewrite Ls. cbn [res_bind]. rewrite kept_tags_obj.
    cbn [res_bind]. unfold setitem3, setitem2. cbn [py_getitem res_bind]. rewrite Hc.
    cbn [res_bind py_getitem]. rewrite Lc. cbn [res_bind py_setitem].
    unfold db_set, db_lookup, db_services, db_categories. rewrite Hc, Lc, Ls.
    rewrite new_tags_kept. reflexivity.
  - cbn [py_getitem res_bind]. rewrite Hc. cbn [res_bind py_items].
    apply (update_scan_wf kvs cats); auto.
Qed.

Section DbSet.
Variables (kvs cats sv : list (string * json)) (c svc : string) (v : json).
Hypothesis Hc : assoc_lookup "categories" kvs = Some (JObj cats).
Hypothesis Lc : assoc_lookup c cats = Some (JObj sv).

Lemma db_set_lookup_same : db_lookup (db_set (JObj kvs) c svc v) c svc = Some v.
Proof.
  unfold db_set. rewrite Hc, Lc. unfold db_lookup, db_services, db_categories.
  rewrite !assoc_lookup_set_same. reflexivity.
Qed.

Lemma db_set_lookup_other c' svc' :
  c' <> c \/ svc' <> svc ->
  db_lookup (db_set (JObj kvs) c svc v) c' svc' = db_lookup (JObj kvs) c' svc'.
Proof.
  intros Hne. unfold db_set. rewrite Hc, Lc. unfold db_lookup, db_services, db_categories.
  rewrite assoc_lookup_set_same, Hc.
  destruct (String.eqb_spec c' c) as [->|Hc'].
  - rewrite assoc_lookup_set_same, Lc. rewrite assoc_lookup_set_other; [reflexivity|].
    destruct Hne as [Hne|Hne]; [contradiction|exact Hne].
  - rewrite assoc_lookup_set_other by exact Hc'. reflexivity.
Qed.

Lemma db_set_cat_keys : cat_keys (db_set (JObj kvs) c svc v) = cat_keys (JObj kvs).
Proof.
  unfold db_set. rewrite Hc, Lc. unfold cat_keys. rewrite assoc_lookup_set_same, Hc.
  rewrite assoc_set_keys by exact (lookup_mem _ _ _ Lc). reflexivity.
Qed.

Lemma db_set_services c' :
  assoc_mem svc sv = true ->
  option_map (map fst) (db_services (db_set (JObj kvs) c svc v) c') =
  option_map (map fst) (db_services (JObj kvs) c').
Proof.
  intros M. unfold db_set. rewrite Hc, Lc. unfold db_services, db_categories.
  rewrite assoc_lookup_set_same, Hc.
  destruct (String.eqb_spec c' c) as [->|Hc'].
  - rewrite assoc_lookup_set_same, Lc. simpl. rewrite assoc_set_keys by exact M. reflexivity.
  - rewrite assoc_lookup_set_other by exact Hc'. reflexivity.
Qed.

End DbSet.

Lemma update_target_found cat svc pw c :
  wf_db pw = true -> update_target cat svc pw = Some c ->
  exists kvs cats sv r, pw = JObj kvs /\ assoc_lookup "categories" kvs = Some (JObj cats) /\
    assoc_lookup c cats = Some (JObj sv) /\ assoc_lookup svc sv = Some r.
Proof.
  intros W. destruct (wf_db_inv _ W) as [kvs [cats [-> [Hc [U Hw]]]]].
  unfold update_target, db_categories. rewrite Hc. destruct (opt_truthy cat).
  - unfold db_lookup, db_services, db_categories. rewrite Hc.
    destruct (assoc_lookup (opt_str cat) cats) as [[| | | | |sv]|] eqn:Lc; try discriminate.
    destruct (assoc_lookup svc sv) as [r|] eqn:Ls; intros H; [|discriminate].
    injection H as <-. exists kvs, cats, sv, r. auto.
  - destruct (find _ cats) as [[c0 v]|] eqn:F; intros H; [|discriminate].
    injection H as <-. apply find_some in F as [Hin Hf]. simpl in Hf.
    destruct (Hw _ _ Hin) as [sv [-> _]].
    rewrite assoc_mem_lookup in Hf. destruct (assoc_lookup svc sv) as [r|] eqn:Ls; [|discriminate].
    exists kvs, cats, sv, r. split; [reflexivity|]. split; [exact Hc|]. split; [|exact Ls].
    exact (keys_unique_lookup _ _ _ U Hin).
Qed.

Section Update.
Context {Key : Type} (C : codec Key).

(** Amended C5: [update_password] on a well-formed database.  When no
    record is targeted (see [update_target]: the given category when it is
    a non-empty string, otherwise the first category holding the service)
    it returns [False] and changes nothing.  Otherwise the targeted record
    becomes the new username and password with the given tags, or the old
    tags when none are given; every other record, the category names and
    the service names are unchanged; the result is [True] when the save
    goes through, and the exception of the save otherwise. *)
Theorem update_password_spec (s : @store Key) svc u p cat tags :
  wf_db (passwords s) = true ->
  match update_target cat svc (passwords s) with
  | None => update_password C svc u p cat tags s = (Ok false, s)
  | Some c =>
      db_lookup (passwords s) c svc <> None /\
      fst (update_password C svc u p cat tags s) =
        match save_outcome (file_path s) (files s) with
        | Ok _ => Ok true
        | Err e => Err e
        end /\
      db_lookup (passwords (snd (update_password C svc u p cat tags s))) c svc
        = Some (updated_record u p tags (db_lookup (passwords s) c svc)) /\
      (forall c' svc', c' <> c \/ svc' <> svc ->
         db_lookup (passwords (snd (update_password C svc u p cat tags s))) c' svc'
           = db_lookup (passwords s) c' svc') /\
      cat_keys (passwords (snd (update_password C svc u p cat tags s)))
        = cat_keys (passwords s) /\
      (forall c', option_map (map fst)
                    (db_services (passwords (snd (update_password C svc u p cat tags s))) c')
                  = option_map (map fst) (db_services (passwords s) c'))
  end.
Proof.
  intros W.
  assert (E : update_password C svc u p cat tags s =
            match update_target cat svc (passwords s) with
            | None => (Ok false, s)
            | Some c =>
                mbind (set_passwords (db_set (passwords s) c svc
                         (updated_record u p tags (db_lookup (passwords s) c svc))))
                  (fun _ => mbind (save_passwords C) (fun _ => mret true)) s
            end).
  { unfold update_password, mbind, mlift, get_passwords. cbv beta iota zeta.
    rewrite (update_pure_wf _ _ _ _ _ _ W).
    destruct (update_target cat svc (passwords s)); reflexivity. }
  rewrite E. destruct (update_target cat svc (passwords s)) as [c|] eqn:T; [|reflexivity].
  destruct (update_target_found _ _ _ _ W T) as [kvs [cats [sv [r [Hp [Hc [Lc Ls]]]]]]].
  unfold mbind, set_passwords, mret. cbv beta iota zeta.
  rewrite save_passwords_result. cbn [file_path passwords files].
  split; [unfold db_lookup, db_services, db_categories; rewrite Hp, Hc, Lc, Ls; discriminate|].
  rewrite Hp.
  destruct (save_outcome (file_path s) (files s)) as [[]|e]; cbn [fst snd passwords];
    (split; [reflexivity|]);
    (split; [apply (db_set_lookup_same _ _ _ _ _ _ Hc Lc)|]);
    (split; [intros c' svc' Hne; apply (db_set_lookup_other _ _ _ _ _ _ Hc Lc _ _ Hne)|]);
    (split; [apply (db_set_cat_keys _ _ _ _ _ _ Hc Lc)|]);
    intros c'; apply (db_set_services _ _ _ _ _ _ Hc Lc); exact (lookup_mem _ _ _ Ls).
Qed.

End Update.

Lemma update_password_spec_witness :
  wf_db tagged_db = true /\
  db_lookup (passwords (snd (update_password (ref_codec []) "x" "u2" "p2" None None
                               (mk_store tagged_db [] blob_path tt 0)))) "Internet" "x"
    = Some (mk_record "u2" "p2" (tags_json ["a"])).
Proof.
  assert (W : wf_db tagged_db = true) by (vm_compute; reflexivity).
  split; [exact W|].
  pose proof (update_password_spec (ref_codec []) (mk_store tagged_db [] blob_path tt 0)
                "x" "u2" "p2" None None W) as H.
  assert (T : update_target None "x" tagged_db = Some "Internet") by (vm_compute; reflexivity).
  cbn [passwords] in H. rewrite T in H. destruct H as [_ [_ [H _]]].
  rewrite H. vm_compute. reflexivity.
Defined.

(** C5 fails: [update(..., category="")] does not update the pair
    [("", service)] that [add(..., category="")] created; [if category:]
    treats [""] as no category and the first category holding the service,
    here ["Internet"], is updated instead. *)
Lemma update_empty_category_edits_other :
  let s1 := snd (add_password (ref_codec []) "x" "u" "p" "Internet" (Some ["a"]) default_store) in
  let s2 := snd (add_password (ref_codec []) "x" "v" "q" "" None s1) in
  let r := update_password (ref_codec []) "x" "u2" "p2" (Some "") None s2 in
  fst r = Ok true /\
  db_lookup (passwords s2) "" "x" = Some (mk_record "v" "q" (JArr [])) /\
  db_lookup (passwords (snd r)) "" "x" = Some (mk_record "v" "q" (JArr [])) /\
  db_lookup (passwords (snd r)) "Internet" "x" = Some (mk_record "u2" "p2" (tags_json ["a"])).
Proof. vm_compute. split; [|split; [|split]]; reflexivity. Qed.

(** ** Search *)

Lemma existsb_map_comp {A B} (f : B -> bool) (g : A -> B) l :
  existsb f (map g l) = existsb (fun x => f (g x)) l.
Proof. induction l as [|x rest IH]; simpl; [reflexivity|]. rewrite IH. reflexivity. Qed.

Lemma res_map_lower xs :
  forallb is_str xs = true -> res_map py_lower_val xs = Ok (map py_lower (str_items xs)).
Proof.
  induction xs as [|x rest IH]; intros W; [reflexivity|].
  simpl in W. destruct x; try discriminate. simpl. rewrite (IH W). reflexivity.
Qed.

Lemma tag_match_wf tag rec :
  wf_record rec = true ->
  tag_match tag rec =
    Ok (if opt_truthy tag
        then existsb (fun t => String.eqb (py_lower (opt_str tag)) (py_lower t))
                     (record_tag_list rec)
        else true).
Proof.
  unfold tag_match. destruct (opt_truthy tag); [|reflexivity].
  destruct rec as [| | | | |r]; try discriminate. unfold wf_record, record_tag_list.
  intros W. cbn [py_contains res_bind]. rewrite assoc_mem_lookup.
  destruct (assoc_lookup "tags" r) as [ts|] eqn:L; [|reflexivity].
  cbn [res_bind py_getitem]. rewrite L. cbn [res_bind].
  destruct ts as [| | | |xs|]; try discriminate.
  destruct xs as [|x xs']; [reflexivity|].
  cbn [truthy length Nat.eqb negb py_iter res_bind].
  rewrite (res_map_lower _ W). cbn [res_bind]. rewrite existsb_map_comp. reflexivity.
Qed.

Lemma search_services_spec keyword tag items : forall results,
  forallb (fun kv => wf_record (snd kv)) items = true ->
  exists r, search_services keyword tag results items = Ok r /\
    forall svc, assoc_lookup svc r =
      fold_left (match_step keyword tag svc) items (assoc_lookup svc results).
Proof.
  induction items as [|[sv cr] rest IH]; intros results W.
  - exists results. auto.
  - simpl in W. apply andb_prop in W as [W1 W2].
    cbn [search_services]. rewrite (tag_match_wf _ _ W1). cbn [res_bind].
    change (str_contains (py_lower keyword) (py_lower sv) &&
            (if opt_truthy tag
             then existsb (fun t => String.eqb (py_lower (opt_str tag)) (py_lower t))
                          (record_tag_list cr)
             else true))
      with (record_matches keyword tag sv cr).
    destruct (IH (if record_matches keyword tag sv cr then assoc_set sv cr results
                  else results) W2) as [r [E L]].
    exists r. split; [exact E|]. intros svc. rewrite L. cbn [fold_left]. f_equal.
    unfold match_step. cbn [fst snd].
    destruct (record_matches keyword tag sv cr); rewrite ?andb_true_r, ?andb_false_r;
      [|reflexivity].
    destruct (String.eqb_spec sv svc) as [->|Hne].
    + apply assoc_lookup_set_same.
    + apply assoc_lookup_set_other. intros ->. apply Hne. reflexivity.
Qed.

Lemma search_fold_spec keyword tag cats : forall acc,
  forallb wf_category cats = true ->
  exists r, res_fold (fun acc cat_services =>
                        items <- py_items (snd cat_services) ;;
                        search_services keyword tag acc items) acc cats = Ok r /\
    forall svc, assoc_lookup svc r =
      fold_left (match_step keyword tag svc)
        (flat_map (fun cs => match snd cs with JObj sv => sv | _ => [] end) cats)
        (assoc_lookup svc acc).
Proof.
  induction cats as [|[c v] rest IH]; intros acc W.
  - exists acc. auto.
  - simpl in W. apply andb_prop in W as [W1 W2]. unfold wf_category in W1.
    cbn [snd] in W1. destruct v as [| | | | |sv]; try discriminate.
    destruct (search_services_spec keyword tag sv acc W1) as [r1 [E1 L1]].
    destruct (IH r1 W2) as [r [E L]].
    exists r. cbn [res_fold py_items snd res_bind]. rewrite E1. cbn [res_bind].
    split; [exact E|]. intros svc. rewrite L, L1. cbn [flat_map snd].
    rewrite fold_left_app. reflexivity.
Qed.

(** Amended C6: on a database whose categories are dicts of records with
    string tag lists, [search_password] returns a dict that maps each
    service name to the last record in scope (see [search_scope]) under that
    name that matches (see [record_matches]): the keyword is compared with
    the service name only, the tag filter applies when it is a non-empty
    string, and a record with no tags never passes it. *)
Theorem search_password_spec keyword cat tag pw :
  wf_tagged_db pw = true ->
  exists r, search_password keyword cat tag pw = Ok (JObj r) /\
    forall svc, assoc_lookup svc r = last_match keyword tag svc (scope_records cat pw).
Proof.
  unfold wf_tagged_db, scope_records, search_scope, last_match, db_categories.
  destruct pw as [| | | | |kvs]; try discriminate.
  destruct (assoc_lookup "categories" kvs) as [[| | | | |cats]|] eqn:Hc; try discriminate.
  intros W. unfold search_password. destruct (opt_truthy cat).
  - cbn [py_getitem res_bind]. rewrite Hc. cbn [res_bind py_contains].
    rewrite assoc_mem_lookup.
    destruct (assoc_lookup (opt_str cat) cats) as [v|] eqn:Lc.
    + pose proof (proj1 (forallb_forall _ _) W _ (assoc_lookup_In _ _ _ Lc)) as Wv.
      unfold wf_category in Wv. cbn [snd] in Wv.
      destruct v as [| | | | |sv]; try discriminate.
      destruct (search_services_spec keyword tag sv [] Wv) as [r [E L]].
      exists r. cbn [res_bind py_getitem]. rewrite Lc. cbn [res_bind py_items].
      rewrite E. split; [reflexivity|]. intros svc. rewrite L.
      cbn [flat_map snd]. rewrite app_nil_r. reflexivity.
    + exists []. split; reflexivity.
  - cbn [py_getitem res_bind]. rewrite Hc. cbn [res_bind py_items].
    destruct (search_fold_spec keyword tag cats [] W) as [r [E L]].
    exists r. rewrite E. split; [reflexivity|]. exact L.
Qed.

Lemma search_password_spec_witness :
  wf_tagged_db tagged_db = true /\
  exists r, search_password "X" None (Some "A") tagged_db = Ok (JObj r) /\
    assoc_lookup "x" r = Some (mk_record "u" "p" (tags_json ["a"])).
Proof.
  assert (W : wf_tagged_db tagged_db = true) by (vm_compute; reflexivity).
  split; [exact W|].
  destruct (search_password_spec "X" None (Some "A") tagged_db W) as [r [E L]].
  exists r. split; [exact E|]. rewrite L. vm_compute. reflexivity.
Defined.

(** C6 fails: the tag filter [""] is given (not [None]), yet [if tag:]
    skips it and a record with no tags matches. *)
Lemma search_empty_tag_matches_untagged :
  record_tag_list (mk_record "alice" "pw" (JArr [])) = [] /\
  search_password "mail" None (Some "") untagged_db =
    Ok (JObj [("mail", mk_record "alice" "pw" (JArr []))]).
Proof. split; vm_compute; reflexivity. Qed.

(** ** Import *)

(** ** Rows of [csv.DictReader] *)








Section CsvImport.
Context {Key : Type}.
Variable add : option string -> option string -> option string -> option string -> @M Key unit.



End CsvImport.



(** * Further properties of the engine *)

(** ** Well-formed databases under the dict updates *)

Lemma In_assoc_set {V} k (v : V) l x : In x (assoc_set k v l) -> x = (k, v) \/ In x l.
Proof.
  unfold assoc_set. destruct (assoc_mem k l); intros H.
  - apply in_map_iff in H as [y [Hy Hin]].
    destruct (String.eqb k (fst y)); [left; congruence|right; subst; exact Hin].
  - apply in_app_or in H as [H|[H|[]]]; [right; exact H|left; congruence].
Qed.

Lemma forallb_assoc_set {V} (P : string * V -> bool) k v l :
  forallb P l = true -> P (k, v) = true -> forallb P (assoc_set k v l) = true.
Proof.
  rewrite !forallb_forall. intros H Hk x Hx.
  apply In_assoc_set in Hx as [->|Hx]; auto.
Qed.

Lemma forallb_assoc_del {V} (P : string * V -> bool) k l :
  forallb P l = true -> forallb P (assoc_del k l) = true.
Proof.
  rewrite !forallb_forall. intros H x Hx. unfold assoc_del in Hx.
  apply filter_In in Hx as [Hx _]. auto.
Qed.

Lemma keys_unique_keys {V W} (l : list (string * V)) (l' : list (string * W)) :
  map fst l = map fst l' -> keys_unique l = keys_unique l'.
Proof.
  revert l'. induction l as [|[k v] rest IH]; intros [|[k' v'] rest'] H;
    try discriminate; [reflexivity|].
  simpl in H. injection H as <- H. simpl.
  rewrite (assoc_mem_keys k rest), (assoc_mem_keys k rest'), H, (IH _ H). reflexivity.
Qed.

Lemma keys_unique_app_new {V} k (v : V) l :
  assoc_mem k l = false -> keys_unique l = true -> keys_unique (l ++ [(k, v)]) = true.
Proof.
  induction l as [|[k0 v0] rest IH]; intros Hm U; [reflexivity|].
  unfold assoc_mem in Hm. simpl in Hm, U |- *.
  apply andb_prop in U as [U1 U2].
  destruct (String.eqb_spec k k0) as [_|Hne]; [discriminate|].
  rewrite IH by assumption.
  unfold assoc_mem in *. rewrite existsb_app. simpl.
  apply negb_true_iff in U1. rewrite U1.
  destruct (String.eqb_spec k0 k); [congruence|reflexivity].
Qed.

Lemma keys_unique_set {V} k (v : V) l :
  keys_unique l = true -> keys_unique (assoc_set k v l) = true.
Proof.
  intros U. destruct (assoc_mem k l) eqn:M.
  - rewrite (keys_unique_keys _ l) by exact (assoc_set_keys _ _ _ M). exact U.
  - rewrite assoc_set_new by exact M. exact (keys_unique_app_new _ _ _ M U).
Qed.

Lemma assoc_lookup_app {V} k (l1 l2 : list (string * V)) :
  assoc_lookup k (l1 ++ l2) =
    match assoc_lookup k l1 with Some v => Some v | None => assoc_lookup k l2 end.
Proof.
  induction l1 as [|[k0 v0] rest IH]; [reflexivity|]. simpl.
  destruct (String.eqb k k0); [reflexivity|exact IH].
Qed.

Lemma wf_db_unfold kvs cats :
  assoc_lookup "categories" kvs = Some (JObj cats) ->
  wf_db (JObj kvs) = keys_unique cats && forallb (fun kv => wf_services (snd kv)) cats.
Proof. intros Hc. unfold wf_db, db_categories. rewrite Hc. reflexivity. Qed.

(** Replacing the categories mapping of a database by [cats']. *)
Lemma wf_db_set_categories kvs cats' :
  keys_unique cats' = true -> forallb (fun kv => wf_services (snd kv)) cats' = true ->
  wf_db (JObj (assoc_set "categories" (JObj cats') kvs)) = true.
Proof.
  intros U F. rewrite (wf_db_unfold _ cats') by apply assoc_lookup_set_same.
  rewrite U, F. reflexivity.
Qed.

Section DbEdit.
Variables (kvs cats sv : list (string * json)) (c svc : string).
Hypothesis Hc : assoc_lookup "categories" kvs = Some (JObj cats).
Hypothesis Lc : assoc_lookup c cats = Some (JObj sv).

Lemma wf_db_cat_parts :
  wf_db (JObj kvs) = true ->
  keys_unique cats = true /\ forallb (fun kv => wf_services (snd kv)) cats = true /\
  forallb (fun kv => is_obj (snd kv)) sv = true.
Proof.
  intros W. rewrite (wf_db_unfold _ _ Hc) in W. apply andb_prop in W as [U F].
  split; [exact U|]. split; [exact F|].
  rewrite forallb_forall in F. exact (F _ (assoc_lookup_In _ _ _ Lc)).
Qed.

Lemma db_set_wf v :
  is_obj v = true -> wf_db (JObj kvs) = true -> wf_db (db_set (JObj kvs) c svc v) = true.
Proof.
  intros Hv W. destruct wf_db_cat_parts as [U [F S]]; [exact W|].
  unfold db_set. rewrite Hc, Lc. apply wf_db_set_categories.
  - apply keys_unique_set. exact U.
  - apply forallb_assoc_set; [exact F|]. cbn [snd wf_services].
    apply forallb_assoc_set; [exact S|exact Hv].
Qed.

Lemma db_del_wf :
  wf_db (JObj kvs) = true -> wf_db (db_del (JObj kvs) c svc) = true.
Proof.
  intros W. destruct wf_db_cat_parts as [U [F S]]; [exact W|].
  unfold db_del. rewrite Hc, Lc. apply wf_db_set_categories.
  - apply keys_unique_set. exact U.
  - apply forallb_assoc_set; [exact F|]. cbn [snd wf_services].
    apply forallb_assoc_del. exact S.
Qed.

Lemma db_del_lookup_same : db_lookup (db_del (JObj kvs) c svc) c svc = None.
Proof.
  unfold db_del. rewrite Hc, Lc. unfold db_lookup, db_services, db_categories.
  rewrite !assoc_lookup_set_same. apply assoc_lookup_del_same.
Qed.

Lemma db_del_lookup_other c' svc' :
  c' <> c \/ svc' <> svc ->
  db_lookup (db_del (JObj kvs) c svc) c' svc' = db_lookup (JObj kvs) c' svc'.
Proof.
  intros Hne. unfold db_del. rewrite Hc, Lc. unfold db_lookup, db_services, db_categories.
  rewrite assoc_lookup_set_same, Hc.
  destruct (String.eqb_spec c' c) as [->|Hc'].
  - rewrite assoc_lookup_set_same, Lc. rewrite assoc_lookup_del_other; [reflexivity|].
    destruct Hne as [Hne|Hne]; [contradiction|exact Hne].
  - rewrite assoc_lookup_set_other by exact Hc'. reflexivity.
Qed.

Lemma delitem3_db_del :
  assoc_mem svc sv = true ->
  delitem3 (JObj kvs) "categories" c svc = Ok (db_del (JObj kvs) c svc).
Proof.
  intros M. unfold delitem3, db_del. cbn [py_getitem res_bind]. rewrite Hc.
  cbn [res_bind py_getitem]. rewrite Lc. cbn [res_bind py_delitem]. rewrite M.
  reflexivity.
Qed.

Lemma setitem3_db_set v :
  setitem3 (JObj kvs) "categories" c svc v = Ok (db_set (JObj kvs) c svc v).
Proof.
  unfold setitem3, setitem2, db_set. cbn [py_getitem res_bind]. rewrite Hc.
  cbn [res_bind py_getitem]. rewrite Lc. reflexivity.
Qed.

End DbEdit.

(** ** Reading a record *)

Lemma get_scan_wf kvs cats svc items :
  assoc_lookup "categories" kvs = Some (JObj cats) ->
  keys_unique cats = true ->
  (forall c v, In (c, v) cats ->
     exists sv, v = JObj sv /\ forall svc r, In (svc, r) sv -> exists rr, r = JObj rr) ->
  (forall c v, In (c, v) items -> In (c, v) cats) ->
  get_scan svc items =
    Ok (match option_map fst (find (fun cs => match snd cs with
                                              | JObj sv => assoc_mem svc sv
                                              | _ => false
                                              end) items) with
        | None => None
        | Some c => db_lookup (JObj kvs) c svc
        end).
Proof.
  intros Hc U Hw. induction items as [|[c v] rest IH]; intros Hin; [reflexivity|].
  destruct (Hw c v (Hin c v (or_introl eq_refl))) as [sv [-> _]].
  assert (Lc : assoc_lookup c cats = Some (JObj sv))
    by exact (keys_unique_lookup _ _ _ U (Hin c _ (or_introl eq_refl))).
  cbn [get_scan find snd py_contains res_bind].
  destruct (assoc_mem svc sv) eqn:M.
  - rewrite assoc_mem_lookup in M.
    destruct (assoc_lookup svc sv) as [r|] eqn:Ls; [|discriminate].
    cbn [py_getitem res_bind option_map fst]. rewrite Ls.
    unfold db_lookup, db_services, db_categories. rewrite Hc, Lc, Ls. reflexivity.
  - apply IH. intros c' v' H'. apply Hin. right. exact H'.
Qed.

Lemma get_password_wf svc cat pw :
  wf_db pw = true ->
  get_password svc cat pw =
    Ok (match update_target cat svc pw with
        | None => None
        | Some c => db_lookup pw c svc
        end).
Proof.
  intros W. destruct (wf_db_inv _ W) as [kvs [cats [-> [Hc [U Hw]]]]].
  unfold get_password, update_target. unfold db_categories at 1. rewrite Hc.
  destruct (opt_truthy cat).
  - cbn [py_getitem res_bind]. rewrite Hc. cbn [res_bind py_contains].
    rewrite assoc_mem_lookup. unfold db_lookup, db_services, db_categories. rewrite Hc.
    destruct (assoc_lookup (opt_str cat) cats) as [v|] eqn:Lc; [|reflexivity].
    destruct (Hw _ _ (assoc_lookup_In _ _ _ Lc)) as [sv [-> _]].
    cbn [res_bind py_getitem]. rewrite Lc. cbn [res_bind py_contains].
    rewrite assoc_mem_lookup.
    destruct (assoc_lookup svc sv) as [r|] eqn:Ls; [|reflexivity].
    cbn [res_bind py_getitem]. rewrite Ls. rewrite Lc, Ls. reflexivity.
  - cbn [py_getitem res_bind]. rewrite Hc. cbn [res_bind py_items].
    apply (get_scan_wf kvs cats); auto.
Qed.

(** ** Deleting a record *)

Lemma delete_scan_wf kvs cats svc items :
  assoc_lookup "categories" kvs = Some (JObj cats) ->
  keys_unique cats = true ->
  (forall c v, In (c, v) cats ->
     exists sv, v = JObj sv /\ forall svc r, In (svc, r) sv -> exists rr, r = JObj rr) ->
  (forall c v, In (c, v) items -> In (c, v) cats) ->
  delete_scan (JObj kvs) svc items =
    match option_map fst (find (fun cs => match snd cs with
                                          | JObj sv => assoc_mem svc sv
                                          | _ => false
                                          end) items) with
    | None => Ok None
    | Some c => Ok (Some (db_del (JObj kvs) c svc))
    end.
Proof.
  intros Hc U Hw. induction items as [|[c v] rest IH]; intros Hin; [reflexivity|].
  destruct (Hw c v (Hin c v (or_introl eq_refl))) as [sv [-> _]].
  assert (Lc : assoc_lookup c cats = Some (JObj sv))
    by exact (keys_unique_lookup _ _ _ U (Hin c _ (or_introl eq_refl))).
  cbn [delete_scan find snd py_contains res_bind].
  destruct (assoc_mem svc sv) eqn:M.
  - rewrite (delitem3_db_del _ _ _ _ _ Hc Lc M). reflexivity.
  - apply IH. intros c' v' H'. apply Hin. right. exact H'.
Qed.

Lemma delete_pure_wf svc cat pw :
  wf_db pw = true ->
  delete_pure svc cat pw =
    match update_target cat svc pw with
    | None => Ok None
    | Some c => Ok (Some (db_del pw c svc))
    end.
Proof.
  intros W. destruct (wf_db_inv _ W) as [kvs [cats [-> [Hc [U Hw]]]]].
  unfold delete_pure, update_target. unfold db_categories at 1. rewrite Hc.
  destruct (opt_truthy cat).
  - cbn [py_getitem res_bind]. rewrite Hc. cbn [res_bind py_contains].
    rewrite assoc_mem_lookup. unfold db_lookup at 1, db_services, db_categories. rewrite Hc.
    destruct (assoc_lookup (opt_str cat) cats) as [v|] eqn:Lc; [|reflexivity].
    destruct (Hw _ _ (assoc_lookup_In _ _ _ Lc)) as [sv [-> _]].
    cbn [res_bind py_getitem]. rewrite Lc. cbn [res_bind py_contains].
    destruct (assoc_mem svc sv) eqn:M.
    + rewrite (delitem3_db_del _ _ _ _ _ Hc Lc M).
      rewrite assoc_mem_lookup in M. destruct (assoc_lookup svc sv); [reflexivity|discriminate].
    + rewrite assoc_mem_lookup in M. destruct (assoc_lookup svc sv); [discriminate|reflexivity].
  - cbn [py_getitem res_bind]. rewrite Hc. cbn [res_bind py_items].
    apply (delete_scan_wf kvs cats); auto.
Qed.

(** ** Adding a record *)

Lemma add_pure_wf svc u p c tags pw :
  wf_db pw = true ->
  exists kvs1 cats1 sv1,
    add_pure svc u p c tags pw = Ok (db_set (JObj kvs1) c svc (added_record u p tags)) /\
    assoc_lookup "categories" kvs1 = Some (JObj cats1) /\
    assoc_lookup c cats1 = Some (JObj sv1) /\
    wf_db (JObj kvs1) = true /\
    (forall c' svc', db_lookup (JObj kvs1) c' svc' = db_lookup pw c' svc').
Proof.
  intros W. pose proof W as W0.
  destruct (wf_db_inv _ W) as [kvs [cats [-> [Hc [U Hw]]]]].
  unfold add_pure. cbn [py_getitem res_bind]. rewrite Hc. cbn [res_bind py_contains].
  destruct (assoc_mem c cats) eqn:M.
  - pose proof M as M'. rewrite assoc_mem_lookup in M'.
    destruct (assoc_lookup c cats) as [v|] eqn:Lc; [|discriminate].
    destruct (Hw _ _ (assoc_lookup_In _ _ _ Lc)) as [sv [-> _]].
    exists kvs, cats, sv. cbn [res_bind].
    rewrite (setitem3_db_set _ _ _ _ _ Hc Lc). auto.
  - set (cats1 := cats ++ [(c, JObj [])]).
    set (kvs1 := assoc_set "categories" (JObj cats1) kvs).
    assert (Hc1 : assoc_lookup "categories" kvs1 = Some (JObj cats1))
      by apply assoc_lookup_set_same.
    assert (Lc1 : assoc_lookup c cats1 = Some (JObj []))
      by (apply assoc_lookup_app_new; exact M).
    exists kvs1, cats1, []. unfold setitem2. cbn [py_getitem res_bind]. rewrite Hc.
    cbn [res_bind py_setitem]. rewrite (assoc_set_new c _ cats M).
    fold cats1 kvs1. rewrite (setitem3_db_set _ _ _ _ _ Hc1 Lc1).
    split; [reflexivity|]. split; [exact Hc1|]. split; [exact Lc1|]. split.
    + rewrite (wf_db_unfold _ _ Hc) in W0. apply andb_prop in W0 as [_ F].
      apply wf_db_set_categories.
      * apply keys_unique_app_new; assumption.
      * unfold cats1. rewrite forallb_app, F. reflexivity.
    + intros c' svc'. unfold db_lookup, db_services, db_categories. rewrite Hc1, Hc.
      unfold cats1. rewrite assoc_lookup_app. cbn [assoc_lookup].
      destruct (assoc_lookup c' cats) as [v|] eqn:L; [reflexivity|].
      destruct (String.eqb c' c); reflexivity.
Qed.

(** ** Tags of the GUI *)

Lemma drop_space_suffix l : exists pre, l = pre ++ drop_space l.
Proof.
  induction l as [|a rest [pre IH]]; [exists []; reflexivity|]. simpl.
  destruct (py_isspace a); [exists (a :: pre); simpl; congruence|exists []; reflexivity].
Qed.

Lemma drop_space_head l :
  match drop_space l with [] => True | a :: _ => py_isspace a = false end.
Proof.
  induction l as [|a rest IH]; [exact I|]. simpl.
  destruct (py_isspace a) eqn:E; [exact IH|exact E].
Qed.

Lemma drop_space_keep l :
  match l with [] => True | a :: _ => py_isspace a = false end -> drop_space l = l.
Proof. destruct l as [|a rest]; [reflexivity|]. simpl. intros ->. reflexivity. Qed.

(** The list that [str.strip()] leaves: no space at either end. *)
Lemma strip_list_stripped l :
  let r := rev (drop_space (rev (drop_space l))) in
  drop_space r = r /\ drop_space (rev r) = rev r.
Proof.
  cbv zeta. set (a := drop_space l). set (b := drop_space (rev a)).
  rewrite rev_involutive. split.
  - destruct (drop_space_suffix (rev a)) as [pre Hpre]. fold b in Hpre.
    assert (Ha : a = rev b ++ rev pre)
      by (rewrite <- rev_app_distr, <- Hpre, rev_involutive; reflexivity).
    pose proof (drop_space_head l) as Hh. fold a in Hh.
    apply drop_space_keep. rewrite Ha in Hh.
    destruct (rev b) as [|x r']; [exact I|exact Hh].
  - apply drop_space_keep. exact (drop_space_head (rev a)).
Qed.

Lemma py_strip_idem t : py_strip (py_strip t) = py_strip t.
Proof.
  unfold py_strip at 1 2. rewrite list_ascii_of_string_of_list_ascii.
  destruct (strip_list_stripped (list_ascii_of_string t)) as [H1 H2].
  rewrite H1, H2, rev_involutive. reflexivity.
Qed.

Lemma In_drop_space c l : In c (drop_space l) -> In c l.
Proof.
  induction l as [|a rest IH]; [auto|]. simpl.
  destruct (py_isspace a); [intros H; right; exact (IH H)|auto].
Qed.

Lemma In_py_strip c t :
  In c (list_ascii_of_string (py_strip t)) -> In c (list_ascii_of_string t).
Proof.
  unfold py_strip. rewrite list_ascii_of_string_of_list_ascii.
  intros H. apply in_rev in H. apply In_drop_space in H. apply in_rev in H.
  exact (In_drop_space _ _ H).
Qed.

Lemma py_split_comma_no_comma s t :
  In t (py_split_comma s) -> ~ In ","%char (list_ascii_of_string t).
Proof.
  revert t. induction s as [|a rest IH]; intros t.
  - intros [<-|[]]. simpl. tauto.
  - cbn [py_split_comma]. destruct (Ascii.eqb_spec a ","%char) as [->|Hne].
    + intros [<-|Ht]; [simpl; tauto|exact (IH _ Ht)].
    + destruct (py_split_comma rest) as [|p ps] eqn:E.
      * intros [<-|[]]. simpl. intros [H|[]]. congruence.
      * intros [<-|Ht].
        -- simpl. intros [H|H]; [congruence|]. apply (IH p); [try rewrite E; left; reflexivity|exact H].
        -- apply IH. try rewrite E. right. exact Ht.
Qed.

Lemma py_split_comma_app t r :
  ~ In ","%char (list_ascii_of_string t) ->
  py_split_comma (t ++ String ","%char r) = t :: py_split_comma r.
Proof.
  induction t as [|a t' IH]; intros Hn; [reflexivity|].
  cbn [append py_split_comma]. rewrite IH by (intros H; apply Hn; right; exact H).
  destruct (Ascii.eqb_spec a ","%char) as [->|_]; [exfalso; apply Hn; left; reflexivity|].
  reflexivity.
Qed.

Lemma py_split_comma_single t :
  ~ In ","%char (list_ascii_of_string t) -> py_split_comma t = [t].
Proof.
  induction t as [|a t' IH]; intros Hn; [reflexivity|].
  cbn [py_split_comma]. rewrite IH by (intros H; apply Hn; right; exact H).
  destruct (Ascii.eqb_spec a ","%char) as [->|_]; [exfalso; apply Hn; left; reflexivity|].
  reflexivity.
Qed.

Lemma py_split_comma_join t rest :
  (forall x, In x (t :: rest) -> ~ In ","%char (list_ascii_of_string x)) ->
  py_split_comma (String.concat ", " (t :: rest)) = t :: map (String " "%char) rest.
Proof.
  revert t. induction rest as [|t2 rest IH]; intros t Hn.
  - apply py_split_comma_single. apply Hn. left. reflexivity.
  - change (String.concat ", " (t :: t2 :: rest))
      with (t ++ String ","%char (String " "%char (String.concat ", " (t2 :: rest))))%string.
    rewrite py_split_comma_app by (apply Hn; left; reflexivity).
    cbn [py_split_comma]. rewrite IH by (intros x Hx; apply Hn; right; exact Hx).
    reflexivity.
Qed.

Lemma py_strip_space t : py_strip (String " "%char t) = py_strip t.
Proof. reflexivity. Qed.

(** ** Generated passwords *)

Lemma get_In_list i s c : String.get i s = Some c -> In c (list_ascii_of_string s).
Proof.
  revert i. induction s as [|a rest IH]; intros i; [discriminate|].
  destruct i as [|i]; simpl; [intros H; injection H as ->; left; reflexivity|].
  intros H. right. exact (IH _ H).
Qed.

Lemma characters_printable c :
  In c (list_ascii_of_string characters) -> (33 <= nat_of_ascii c <= 126)%nat.
Proof.
  assert (F : forallb (fun c => Nat.leb 33 (nat_of_ascii c) && Nat.leb (nat_of_ascii c) 126)
                (list_ascii_of_string characters) = true) by (vm_compute; reflexivity).
  rewrite forallb_forall in F. intros H. specialize (F _ H).
  apply andb_prop in F as [F1 F2]. apply Nat.leb_le in F1, F2. lia.
Qed.

Lemma get_length_some i s : (i < String.length s)%nat -> exists c, String.get i s = Some c.
Proof.
  revert i. induction s as [|a rest IH]; intros i Hi; [simpl in Hi; lia|].
  destruct i as [|i]; [exists a; reflexivity|]. simpl in Hi. apply IH. lia.
Qed.

Lemma gen_chars_spec draw n :
  (forall i, draw i < String.length characters)%nat ->
  forall i, exists p, gen_chars draw i n = Some p /\ String.length p = n /\
    forall c, In c (list_ascii_of_string p) -> In c (list_ascii_of_string characters).
Proof.
  intros Hd. induction n as [|n IH]; intros i.
  - exists "". simpl. split; [reflexivity|]. split; [reflexivity|]. intros c [].
  - destruct (get_length_some _ _ (Hd i)) as [c Hc].
    destruct (IH (S i)) as [p [Hp [Hl Hin]]].
    exists (String c p). cbn [gen_chars]. unfold choice. rewrite Hc, Hp.
    split; [reflexivity|]. split; [simpl; congruence|].
    intros c' [<-|H]; [exact (get_In_list _ _ _ Hc)|exact (Hin _ H)].
Qed.

Lemma filter_all {A} (f : A -> bool) l : (forall x, In x l -> f x = true) -> filter f l = l.
Proof.
  induction l as [|x rest IH]; intros H; [reflexivity|]. simpl.
  rewrite (H x (or_introl eq_refl)), IH by (intros y Hy; apply H; right; exact Hy).
  reflexivity.
Qed.

Section Operations.
Context {Key : Type} (C : codec Key).

Lemma add_password_result (s : @store Key) svc u p c tags :
  wf_db (passwords s) = true ->
  exists kvs1 cats1 sv1,
    assoc_lookup "categories" kvs1 = Some (JObj cats1) /\
    assoc_lookup c cats1 = Some (JObj sv1) /\
    wf_db (JObj kvs1) = true /\
    (forall c' svc', db_lookup (JObj kvs1) c' svc' = db_lookup (passwords s) c' svc') /\
    fst (add_password C svc u p c tags s) = save_outcome (file_path s) (files s) /\
    passwords (snd (add_password C svc u p c tags s)) =
      db_set (JObj kvs1) c svc (added_record u p tags).
Proof.
  intros W. destruct (add_pure_wf svc u p c tags _ W) as [kvs1 [cats1 [sv1 [Ha [Hc [Lc [W1 L]]]]]]].
  exists kvs1, cats1, sv1. do 4 (split; [assumption|]).
  unfold add_password, mbind, mlift, get_passwords, set_passwords. rewrite Ha.
  cbv beta iota zeta. rewrite save_passwords_result. cbn [file_path passwords files].
  split; reflexivity.
Qed.

Lemma delete_password_found (s : @store Key) svc cat c :
  wf_db (passwords s) = true -> update_target cat svc (passwords s) = Some c ->
  fst (delete_password C svc cat s) =
    match save_outcome (file_path s) (files s) with Ok _ => Ok true | Err e => Err e end /\
  passwords (snd (delete_password C svc cat s)) = db_del (passwords s) c svc.
Proof.
  intros W T. unfold delete_password, mbind, mlift, get_passwords.
  rewrite (delete_pure_wf _ _ _ W), T. unfold set_passwords, mret. cbv beta iota zeta.
  rewrite save_passwords_result. cbn [file_path passwords files].
  destruct (save_outcome (file_path s) (files s)); split; reflexivity.
Qed.

(** [add_password] on a well-formed database stores the record
    [{'username', 'password', 'tags'}] (tags [[]] when none are given) under
    the pair [(category, service)], creating the category when it is absent
    and replacing a record already there; every other record stays as it
    was and the database stays well-formed.  The call succeeds or raises
    as the save to the blob path does ([save_outcome]), the record being
    set in either case. *)
Theorem add_password_spec (s : @store Key) svc u p c tags :
  wf_db (passwords s) = true ->
  fst (add_password C svc u p c tags s) = save_outcome (file_path s) (files s) /\
  db_lookup (passwords (snd (add_password C svc u p c tags s))) c svc
    = Some (added_record u p tags) /\
  (forall c' svc', c' <> c \/ svc' <> svc ->
     db_lookup (passwords (snd (add_password C svc u p c tags s))) c' svc'
       = db_lookup (passwords s) c' svc') /\
  wf_db (passwords (snd (add_password C svc u p c tags s))) = true.
Proof.
  intros W.
  destruct (add_password_result s svc u p c tags W)
    as [kvs1 [cats1 [sv1 [Hc [Lc [W1 [L [Hr Hp]]]]]]]].
  rewrite Hp. split; [exact Hr|]. split; [exact (db_set_lookup_same _ _ _ _ _ _ Hc Lc)|].
  split.
  - intros c' svc' Hne. rewrite (db_set_lookup_other _ _ _ _ _ _ Hc Lc _ _ Hne). apply L.
  - apply (db_set_wf _ _ _ _ _ Hc Lc); [reflexivity|exact W1].
Qed.

(** Insert then lookup: after [add_password(service, ..., category)] with
    a non-empty category, [get_password(service, category)] returns the
    record just stored. *)
Theorem add_then_get_password (s : @store Key) svc u p c tags :
  wf_db (passwords s) = true -> c <> "" ->
  get_password svc (Some c) (passwords (snd (add_password C svc u p c tags s)))
    = Ok (Some (added_record u p tags)).
Proof.
  intros W Hne.
  destruct (add_password_result s svc u p c tags W)
    as [kvs1 [cats1 [sv1 [Hc [Lc [W1 [L [Hr Hp]]]]]]]].
  rewrite Hp. rewrite get_password_wf by exact (db_set_wf _ _ _ _ _ Hc Lc (added_record u p tags) eq_refl W1).
  assert (E : opt_truthy (Some c) = true)
    by (destruct c; [contradiction|reflexivity]).
  unfold update_target. rewrite E. cbn [opt_str].
  rewrite (db_set_lookup_same _ _ _ _ _ _ Hc Lc).
  unfold db_set at 1. rewrite Hc, Lc. unfold db_categories. rewrite assoc_lookup_set_same.
  fold (db_set (JObj kvs1) c svc (added_record u p tags)).
  rewrite (db_set_lookup_same _ _ _ _ _ _ Hc Lc). reflexivity.
Qed.

(** [get_password] on a well-formed database returns the record of the
    given category when it is a non-empty string, otherwise (no category,
    or [""]) the record of the first category in order that holds the
    service, and [None] when there is no such record: the record that
    [update_password] and [delete_password] target with the same
    arguments. *)
Theorem get_password_spec svc cat pw :
  wf_db pw = true ->
  get_password svc cat pw =
    Ok (match update_target cat svc pw with
        | None => None
        | Some c => db_lookup pw c svc
        end).
Proof. exact (get_password_wf svc cat pw). Qed.

(** [delete_password] on a well-formed database: when no record is
    targeted it returns [False] and changes nothing; otherwise the targeted
    record is gone, every other record stays, the database stays
    well-formed, [get_password] with the same non-empty category then
    returns [None], and the result is [True] when the save goes through,
    the exception of the save otherwise. *)
Theorem delete_password_spec (s : @store Key) svc cat :
  wf_db (passwords s) = true ->
  match update_target cat svc (passwords s) with
  | None => delete_password C svc cat s = (Ok false, s)
  | Some c =>
      fst (delete_password C svc cat s) =
        match save_outcome (file_path s) (files s) with Ok _ => Ok true | Err e => Err e end /\
      db_lookup (passwords s) c svc <> None /\
      db_lookup (passwords (snd (delete_password C svc cat s))) c svc = None /\
      (forall c' svc', c' <> c \/ svc' <> svc ->
         db_lookup (passwords (snd (delete_password C svc cat s))) c' svc'
           = db_lookup (passwords s) c' svc') /\
      wf_db (passwords (snd (delete_password C svc cat s))) = true /\
      (opt_truthy cat = true ->
         get_password svc cat (passwords (snd (delete_password C svc cat s))) = Ok None)
  end.
Proof.
  intros W. destruct (update_target cat svc (passwords s)) as [c|] eqn:T.
  - destruct (delete_password_found s svc cat c W T) as [Hr Hp]. rewrite Hp.
    destruct (update_target_found _ _ _ _ W T) as [kvs [cats [sv [r [Ep [Hc [Lc Ls]]]]]]].
    rewrite Ep in *.
    assert (W' : wf_db (db_del (JObj kvs) c svc) = true)
      by exact (db_del_wf _ _ _ _ _ Hc Lc W).
    split; [exact Hr|].
    split; [unfold db_lookup, db_services, db_categories; rewrite Hc, Lc, Ls; discriminate|].
    split; [exact (db_del_lookup_same _ _ _ _ _ Hc Lc)|].
    split; [intros c' svc' Hne; exact (db_del_lookup_other _ _ _ _ _ Hc Lc _ _ Hne)|].
    split; [exact W'|].
    intros Ht. rewrite (get_password_wf _ _ _ W').
    assert (Hcat : opt_str cat = c).
    { unfold update_target, db_categories in T. rewrite Hc, Ht in T.
      destruct (db_lookup _ _ _); [injection T as <-; reflexivity|discriminate]. }
    unfold update_target at 1. rewrite Ht, Hcat.
    rewrite (db_del_lookup_same _ _ _ _ _ Hc Lc).
    destruct (db_categories _); reflexivity.
  - unfold delete_password, mbind, mlift, get_passwords.
    rewrite (delete_pure_wf _ _ _ W), T. reflexivity.
Qed.

(** [update_password] keeps a well-formed database well-formed. *)
Theorem update_password_keeps_wf (s : @store Key) svc u p cat tags :
  wf_db (passwords s) = true ->
  wf_db (passwords (snd (update_password C svc u p cat tags s))) = true.
Proof.
  intros W. unfold update_password, mbind, mlift, get_passwords.
  rewrite (update_pure_wf _ _ _ _ _ _ W).
  destruct (update_target cat svc (passwords s)) as [c|] eqn:T; [|exact W].
  destruct (update_target_found _ _ _ _ W T) as [kvs [cats [sv [r [Ep [Hc [Lc Ls]]]]]]].
  unfold set_passwords, mret. cbv beta iota zeta.
  rewrite save_passwords_result. cbn [file_path passwords].
  assert (W' : wf_db (db_set (passwords s) c svc
                        (updated_record u p tags (db_lookup (passwords s) c svc))) = true)
    by (rewrite Ep in *; apply (db_set_wf _ _ _ _ _ Hc Lc); [reflexivity|exact W]).
  destruct (save_outcome (file_path s) (files (mk_store _ (files s) (file_path s) (key s) (nonce s))));
    exact W'.
Qed.

(** First run: when nothing exists at the blob path, [__init__] is
    exactly a save of the database of the seven default categories, each
    empty: it succeeds or raises as that save does, and leaves the store
    as that save leaves it; [get_categories] lists the defaults in
    order. *)
Theorem init_new_store (s : @store Key) :
  path_exists (files s) (file_path s) = false ->
  init_store C s =
    save_passwords C (mk_store default_db (files s) (file_path s) (key s) (nonce s)) /\
  get_categories default_db = Ok default_categories.
Proof.
  intros H. split; [|reflexivity].
  assert (L : load_passwords_res C s = Ok (JObj [])) by (unfold load_passwords_res; rewrite H; reflexivity).
  rewrite (init_store_without_categories C s [] L eq_refl).
  replace (JObj ([] ++ [("categories", JObj (empty_services default_categories))]))
    with default_db by reflexivity.
  unfold mbind.
  destruct (save_passwords C (mk_store default_db (files s) (file_path s) (key s) (nonce s)))
    as [[[]|e] s1] eqn:Es; [|reflexivity].
  destruct (save_passwords_ok_ready C _ _ Es) as (_ & Hp & _). cbn [passwords] in Hp.
  unfold check_and_migrate_categories, mbind, mlift, get_passwords, mret.
  rewrite Hp. reflexivity.
Qed.

End Operations.

(** [load_key] on the key path [kp]: whenever it returns a key, the key
    path then holds that key and no other path has changed, apart from the
    missing parent directories [os.makedirs] creates; a key file already
    there is returned as it is and not rewritten; when nothing was at the
    path the generated key is written and returned; and a later [load_key]
    returns the same key and changes nothing, whatever key it would
    generate. *)
Theorem load_key_spec gen gen' kp fs k fs' :
  load_key gen kp fs = (Ok k, fs') ->
  assoc_lookup kp fs' = Some (File k) /\
  (forall p, p <> kp ->
     assoc_lookup p fs' = assoc_lookup p fs \/
     (assoc_lookup p fs = None /\ assoc_lookup p fs' = Some Dir)) /\
  (forall d, assoc_lookup kp fs = Some (File d) -> k = d) /\
  (assoc_lookup kp fs = None -> k = gen) /\
  load_key gen' kp fs' = (Ok k, fs').
Proof.
  unfold load_key at 1.
  destruct (makedirs fs (dirname kp)) as [[[]|e] fs1] eqn:Em; [|discriminate].
  pose proof (makedirs_grows _ _ _ _ Em) as G.
  destruct (makedirs_ok_ready _ _ _ Em) as [Hd Hc].
  destruct (path_exists fs1 kp) eqn:Pe.
  - intros H. injection H as Hk <-.
    destruct (open_rb_ok _ _ _ Hk) as (Hp & Hw & Hr & Hl).
    split; [exact Hl|]. split; [intros p _; exact (G p)|]. split; [|split].
    + intros d Hd'. destruct (G kp) as [E|[E _]]; congruence.
    + intros Hn. destruct (G kp) as [E|[_ E]]; congruence.
    + unfold load_key. rewrite (makedirs_ready fs1 (dirname kp) Hd Hc). cbn.
      rewrite Pe, Hk. reflexivity.
  - cbn [fs_run fs_step].
    destruct (open_wb fs1 kp) as [fs2|e] eqn:Eo; [|discriminate].
    destruct (open_wb_ok _ _ _ Eo) as (-> & Hp & Hw & Hr & Hl).
    pose proof (path_exists_false_none _ _ Pe Hp Hw) as Hn.
    cbn [last]. intros H. injection H as <- <-.
    split; [apply assoc_lookup_set_same|]. split; [|split; [|split]].
    + intros p Hne. rewrite !assoc_lookup_set_other by exact Hne. exact (G p).
    + intros d Hd'. destruct (G kp) as [E|[_ E]]; congruence.
    + intros _. reflexivity.
    + assert (Hl' : assoc_lookup kp (assoc_set kp (File []) fs1) <> Some Dir)
        by (rewrite assoc_lookup_set_same; discriminate).
      assert (Hw' : walk (assoc_set kp (File gen) (assoc_set kp (File []) fs1)) kp = Ok tt)
        by (rewrite !walk_set_self; exact Hw).
      assert (L : assoc_lookup kp (assoc_set kp (File gen) (assoc_set kp (File []) fs1))
                  = Some (File gen)) by apply assoc_lookup_set_same.
      unfold load_key.
      rewrite (makedirs_ready _ (dirname kp) Hd
                 (dir_chain_set _ _ _ _ (dir_chain_set _ _ _ _ Hc Hl) Hl')).
      cbn. rewrite (path_exists_file _ _ _ Hp Hw' L), (open_rb_file _ _ _ Hp Hw' Hr L).
      reflexivity.
Qed.

(** [generate_password(length)] draws from the 94 characters of
    [ascii_letters + digits + punctuation], printable ASCII without the
    space; given draws of [randbelow] below 94, it returns a password of
    exactly [length] characters ([""] for [length <= 0]), each of them
    printable and not a space. *)
Theorem generate_password_spec (draw : nat -> nat) (n : Z) :
  (forall i, draw i < String.length characters)%nat ->
  String.length characters = 94%nat /\
  exists p, generate_password draw n = Some p /\ String.length p = Z.to_nat n /\
    forall c, In c (list_ascii_of_string p) -> (33 <= nat_of_ascii c <= 126)%nat.
Proof.
  intros Hd. split; [reflexivity|].
  destruct (gen_chars_spec draw (Z.to_nat n) Hd 0) as [p [Hp [Hl Hin]]].
  exists p. split; [exact Hp|]. split; [exact Hl|].
  intros c H. exact (characters_printable _ (Hin _ H)).
Qed.

(** The tag list the GUI builds from the tags field holds no empty tag,
    no tag with a space at either end and no tag with a comma. *)
Theorem parse_tags_clean (tags t : string) :
  In t (parse_tags tags) ->
  t <> "" /\ py_strip t = t /\ ~ In ","%char (list_ascii_of_string t).
Proof.
  unfold parse_tags. destruct (negb (String.eqb tags "")); [|intros []].
  intros Ht. apply in_map_iff in Ht as [x [<- Hx]]. apply filter_In in Hx as [Hx Hne].
  split; [|split].
  - intros E. rewrite E in Hne. discriminate.
  - apply py_strip_idem.
  - intros H. apply In_py_strip in H. exact (py_split_comma_no_comma _ _ Hx H).
Qed.

(** The tags shown joined with [', '] parse back to the same list: for
    tags that are non-empty, stripped and free of commas, parsing the
    field [', '.join(tags)] gives [tags]. *)
Theorem parse_tags_join (ts : list string) :
  (forall t, In t ts -> t <> "" /\ py_strip t = t /\ ~ In ","%char (list_ascii_of_string t)) ->
  parse_tags (String.concat ", " ts) = ts.
Proof.
  intros H. destruct ts as [|t rest]; [reflexivity|]. unfold parse_tags.
  assert (Ne : String.eqb (String.concat ", " (t :: rest)) "" = false).
  { destruct (H t (or_introl eq_refl)) as [Ht _].
    destruct t as [|a t']; [contradiction|]. destruct rest; reflexivity. }
  rewrite Ne. cbn [negb].
  rewrite py_split_comma_join by (intros x Hx; apply (H x Hx)).
  rewrite filter_all.
  - cbn [map]. f_equal; [apply (H t (or_introl eq_refl))|].
    rewrite map_map. rewrite <- (map_id rest) at 2. apply map_ext_in.
    intros x Hx. rewrite py_strip_space. apply (H x (or_intror Hx)).
  - intros x [<-|Hx].
    + destruct (H t (or_introl eq_refl)) as [Hne [Hs _]]. rewrite Hs.
      destruct (String.eqb_spec t ""); [contradiction|reflexivity].
    + apply in_map_iff in Hx as [y [<- Hy]]. rewrite py_strip_space.
      destruct (H y (or_intror Hy)) as [Hne [Hs _]]. rewrite Hs.
      destruct (String.eqb_spec y ""); [contradiction|reflexivity].
Qed.

(** [check_password_strength] scores between -20 and 70, and reports
    the colour of the top tier ("Very Strong") exactly for a password of
    at least 12 characters with an upper-case letter, a lower-case letter,
    a digit and a special character and none of the common patterns. *)
Theorem password_strength_range (p : string) :
  (-20 <= password_score p <= 70)%Z /\
  (snd (check_password_strength p) = "#00FF00" <->
   (12 <= String.length p)%nat /\ has_upper p = true /\ has_lower p = true /\
   has_digit p = true /\ has_special p = true /\ has_common_pattern p = false).
Proof.
  destruct (check_password_strength_tier p) as [Hc _]. rewrite Hc, password_score_sum.
  destruct (Nat.ltb_spec (String.length p) 8); destruct (Nat.leb_spec 12 (String.length p));
    destruct (has_upper p), (has_lower p), (has_digit p), (has_special p),
      (has_common_pattern p); simpl;
    (split; [lia|]); split; intros Hx;
    repeat match goal with H : _ /\ _ |- _ => destruct H end;
    try discriminate; try lia; try reflexivity; repeat split; lia.
Qed.

(** ** Witnesses for the engine operations *)

Lemma add_password_spec_witness :
  wf_db tagged_db = true /\
  db_lookup (passwords (snd (add_password (ref_codec []) "y" "v" "q" "Gaming" None tagged_store)))
    "Gaming" "y" = Some (added_record "v" "q" None).
Proof.
  assert (W : wf_db tagged_db = true) by (vm_compute; reflexivity).
  split; [exact W|].
  exact (proj1 (proj2 (add_password_spec (ref_codec []) tagged_store "y" "v" "q" "Gaming" None W))).
Defined.

Lemma add_then_get_password_witness :
  wf_db tagged_db = true /\ "Gaming" <> "" /\
  get_password "y" (Some "Gaming")
    (passwords (snd (add_password (ref_codec []) "y" "v" "q" "Gaming" (Some ["t"]) tagged_store)))
    = Ok (Some (added_record "v" "q" (Some ["t"]))).
Proof.
  assert (W : wf_db tagged_db = true) by (vm_compute; reflexivity).
  assert (Hne : "Gaming" <> "") by discriminate.
  split; [exact W|]. split; [exact Hne|].
  exact (add_then_get_password (ref_codec []) tagged_store "y" "v" "q" "Gaming" (Some ["t"]) W Hne).
Defined.

Lemma get_password_spec_witness :
  wf_db tagged_db = true /\
  get_password "x" None tagged_db = Ok (Some (mk_record "u" "p" (tags_json ["a"]))).
Proof.
  assert (W : wf_db tagged_db = true) by (vm_compute; reflexivity).
  split; [exact W|]. rewrite (get_password_spec "x" None tagged_db W).
  vm_compute. reflexivity.
Defined.

Lemma delete_password_spec_witness :
  wf_db tagged_db = true /\
  db_lookup (passwords (snd (delete_password (ref_codec []) "x" (Some "Internet") tagged_store)))
    "Internet" "x" = None.
Proof.
  assert (W : wf_db tagged_db = true) by (vm_compute; reflexivity).
  split; [exact W|].
  pose proof (delete_password_spec (ref_codec []) tagged_store "x" (Some "Internet") W) as H.
  assert (T : update_target (Some "Internet") "x" tagged_db = Some "Internet")
    by (vm_compute; reflexivity).
  cbn [passwords tagged_store] in H. rewrite T in H. destruct H as [_ [_ [H _]]]. exact H.
Defined.

Lemma update_password_keeps_wf_witness :
  wf_db tagged_db = true /\
  wf_db (passwords (snd (update_password (ref_codec []) "x" "u2" "p2" None (Some ["b"])
                           tagged_store))) = true.
Proof.
  assert (W : wf_db tagged_db = true) by (vm_compute; reflexivity).
  split; [exact W|].
  exact (update_password_keeps_wf (ref_codec []) tagged_store "x" "u2" "p2" None (Some ["b"]) W).
Defined.

Lemma init_new_store_witness :
  path_exists (files (fresh_store [])) (file_path (fresh_store [])) = false /\
  fst (init_store (ref_codec []) (fresh_store [])) = Ok tt /\
  passwords (snd (init_store (ref_codec []) (fresh_store []))) = default_db.
Proof.
  assert (H : path_exists (files (fresh_store [])) (file_path (fresh_store [])) = false)
    by (vm_compute; reflexivity).
  split; [exact H|].
  destruct (init_new_store (ref_codec []) (fresh_store []) H) as [E _].
  rewrite E. split; vm_compute; reflexivity.
Defined.

Lemma load_key_spec_witness :
  load_key [x6b; x31] key_file [] = (Ok [x6b; x31], snd (load_key [x6b; x31] key_file [])) /\
  load_key [x6b; x32] key_file (snd (load_key [x6b; x31] key_file []))
    = (Ok [x6b; x31], snd (load_key [x6b; x31] key_file [])).
Proof.
  assert (H : load_key [x6b; x31] key_file [] = (Ok [x6b; x31], snd (load_key [x6b; x31] key_file [])))
    by (vm_compute; reflexivity).
  split; [exact H|].
  exact (proj2 (proj2 (proj2 (proj2 (load_key_spec [x6b; x31] [x6b; x32] key_file [] _ _ H))))).
Defined.

Lemma generate_password_spec_witness :
  (forall i, (fun _ : nat => 0%nat) i < String.length characters)%nat /\
  exists p, generate_password (fun _ => 0%nat) 4 = Some p /\ String.length p = 4%nat.
Proof.
  assert (Hd : forall i, ((fun _ : nat => 0%nat) i < String.length characters)%nat)
    by (intros i; apply Nat.ltb_lt; vm_compute; reflexivity).
  split; [exact Hd|].
  destruct (generate_password_spec (fun _ => 0%nat) 4 Hd) as [_ [p [Hp [Hl _]]]].
  exists p. split; [exact Hp|exact Hl].
Defined.

Lemma parse_tags_clean_witness :
  In "b" (parse_tags " a ,, b") /\
  ("b" <> "" /\ py_strip "b" = "b" /\ ~ In ","%char (list_ascii_of_string "b")).
Proof.
  assert (H : In "b" (parse_tags " a ,, b")) by (vm_compute; right; left; reflexivity).
  split; [exact H|]. exact (parse_tags_clean " a ,, b" "b" H).
Defined.

Lemma parse_tags_join_witness :
  parse_tags (String.concat ", " ["work"; "home"]) = ["work"; "home"].
Proof.
  apply parse_tags_join. intros t Ht.
  destruct Ht as [<-|[<-|[]]]; (split; [discriminate|split; [vm_compute; reflexivity|]]);
    simpl; intuition discriminate.
Defined.

(** ** Export *)




Lemma write_services_rows c sv : forall out,
  fst (write_services c sv out) = Ok tt ->
  exists ds, snd (write_services c sv out) = out ++ ds /\
    Forall2 (fun sc d => export_record c sc = Ok d) sv ds.
Proof.
  induction sv as [|sc rest IH]; intros out H; cbn [write_services] in *.
  - exists []. rewrite app_nil_r. auto.
  - destruct (export_record c sc) as [d|e] eqn:E; [|discriminate].
    destruct (IH _ H) as [ds [Hs Hf]]. exists (d :: ds). split.
    + rewrite Hs, <- app_assoc. reflexivity.
    + constructor; assumption.
Qed.

Lemma export_entries_cons c sv rest :
  export_entries ((c, JObj sv) :: rest) =
    map (fun sr => ((c, fst sr), snd sr)) sv ++ export_entries rest.
Proof. reflexivity. Qed.


Lemma write_categories_rows cats :
  (forall c v, In (c, v) cats -> is_obj v = true) -> forall out,
  fst (write_categories cats out) = Ok tt ->
  exists ds, snd (write_categories cats out) = out ++ ds /\
    Forall2 (fun e d => export_record (fst (fst e)) (snd (fst e), snd e) = Ok d)
      (export_entries cats) ds.
Proof.
  induction cats as [|[c v] rest IH]; intros Ho out H.
  - exists []. rewrite app_nil_r. split; [reflexivity|constructor].
  - pose proof (Ho c v (or_introl eq_refl)) as Hv.
    destruct v as [| | | | |sv]; try discriminate.
    rewrite export_entries_cons. cbn [write_categories py_items] in *.
    destruct (write_services c sv out) as [[u|e] o] eqn:Ew; [|discriminate].
    assert (Hs : fst (write_services c sv out) = Ok tt) by (rewrite Ew; destruct u; reflexivity).
    destruct (write_services_rows c sv out Hs) as [ds1 [Hs1 F1]].
    rewrite Ew in Hs1. cbn [snd] in Hs1. subst o.
    destruct (IH (fun c' v' H' => Ho c' v' (or_intror H')) _ H) as [ds2 [Hs2 F2]].
    exists (ds1 ++ ds2). split; [rewrite Hs2, app_assoc; reflexivity|].
    apply Forall2_app; [|exact F2].
    clear -F1. induction F1 as [|[svc r] d sv' ds' Hd _ IHF]; constructor; assumption.
Qed.

Lemma export_passwords_wf pw kvs cats :
  pw = JObj kvs -> assoc_lookup "categories" kvs = Some (JObj cats) ->
  export_passwords true pw =
    (match fst (write_categories cats []) with Ok _ => true | Err _ => false end,
     snd (write_categories cats [])).
Proof.
  intros -> Hc. unfold export_passwords. cbn [py_getitem]. rewrite Hc. cbn [py_items].
  destruct (write_categories cats []). reflexivity.
Qed.

Lemma not_in_keys {V} k (l : list (string * V)) :
  assoc_mem k l = false -> ~ In k (map fst l).
Proof.
  rewrite assoc_mem_keys. intros H Hin.
  assert (E : existsb (String.eqb k) (map fst l) = true)
    by (apply existsb_exists; exists k; split; [exact Hin|apply String.eqb_refl]).
  congruence.
Qed.

Lemma keys_unique_NoDup {V} (l : list (string * V)) : keys_unique l = true -> NoDup (map fst l).
Proof.
  induction l as [|[k v] rest IH]; intros U; [constructor|].
  cbn [keys_unique] in U. apply andb_prop in U as [U1 U2]. apply negb_true_iff in U1.
  constructor; [exact (not_in_keys _ _ U1)|exact (IH U2)].
Qed.

Lemma NoDup_map_pair {A B} (a : A) (l : list B) : NoDup l -> NoDup (map (pair a) l).
Proof.
  induction 1 as [|x l Hx Nd IH]; constructor; [|exact IH].
  intros H. apply in_map_iff in H as [y [Hy Hin]]. injection Hy as ->. contradiction.
Qed.

Lemma entries_keys_in c k cats :
  In (c, k) (map fst (export_entries cats)) -> In c (map fst cats).
Proof.
  unfold export_entries. rewrite flat_map_concat_map, concat_map.
  intros H. apply in_concat in H as [l [Hl Hin]].
  rewrite map_map in Hl. apply in_map_iff in Hl as [[c0 v0] [<- Hc0]].
  cbn [snd fst] in Hin. destruct v0 as [| | | | |sv]; try destruct Hin.
  rewrite map_map in Hin. apply in_map_iff in Hin as [sr [E _]]. injection E as <- _.
  apply in_map_iff. exists (c0, JObj sv). auto.
Qed.

Lemma NoDup_entries cats :
  keys_unique cats = true ->
  forallb (fun kv => match snd kv with JObj sv => keys_unique sv | _ => false end) cats = true ->
  NoDup (map fst (export_entries cats)).
Proof.
  induction cats as [|[c v] rest IH]; intros U S; [constructor|].
  cbn [keys_unique] in U. apply andb_prop in U as [U1 U2]. apply negb_true_iff in U1.
  cbn [forallb snd] in S. apply andb_prop in S as [S1 S2].
  destruct v as [| | | | |sv]; try discriminate.
  rewrite export_entries_cons, map_app, map_map. cbn [fst].
  apply NoDup_app.
  - replace (map (fun x => (c, fst x)) sv) with (map (pair c) (map fst sv))
      by (rewrite map_map; reflexivity).
    apply NoDup_map_pair. exact (keys_unique_NoDup _ S1).
  - exact (IH U2 S2).
  - intros a Ha Ha'. apply in_map_iff in Ha as [sr [<- _]].
    apply entries_keys_in in Ha'. exact (not_in_keys _ _ U1 Ha').
Qed.

Lemma find_app {A} (f : A -> bool) l1 l2 :
  find f (l1 ++ l2) = match find f l1 with Some x => Some x | None => find f l2 end.
Proof.
  induction l1 as [|x rest IH]; [reflexivity|]. cbn [app find].
  destruct (f x); [reflexivity|exact IH].
Qed.

Lemma key_is_eq c svc k : key_is c svc k = true -> k = (c, svc).
Proof.
  destruct k as [c' svc']. unfold key_is. cbn [fst snd]. intros H.
  apply andb_prop in H as [H1 H2]. apply String.eqb_eq in H1, H2. subst. reflexivity.
Qed.

Lemma key_is_false c svc c' svc' :
  key_is c svc (c', svc') = false -> c <> c' \/ svc <> svc'.
Proof.
  unfold key_is. cbn [fst snd]. intros H.
  destruct (String.eqb_spec c' c); [|left; congruence].
  destruct (String.eqb_spec svc' svc); [discriminate|right; congruence].
Qed.

Lemma find_key_map {B} c0 c svc (sv : list (string * B)) :
  find (fun e => key_is c svc (fst e)) (map (fun sr => ((c0, fst sr), snd sr)) sv) =
    if String.eqb c0 c then option_map (fun r => ((c0, svc), r)) (assoc_lookup svc sv)
    else None.
Proof.
  induction sv as [|[k r] rest IH]; cbn [map find fst snd].
  - destruct (String.eqb c0 c); reflexivity.
  - rewrite IH. unfold key_is. cbn [fst snd assoc_lookup].
    destruct (String.eqb c0 c); cbn [andb]; [|reflexivity].
    rewrite (String.eqb_sym k svc).
    destruct (String.eqb_spec svc k) as [->|_]; reflexivity.
Qed.

Lemma find_entries_absent c svc cats :
  ~ In c (map fst cats) ->
  find (fun e => key_is c svc (fst e)) (export_entries cats) = None.
Proof.
  induction cats as [|[c0 v0] rest IH]; intros Hn; [reflexivity|].
  unfold export_entries. cbn [flat_map]. rewrite find_app. fold (export_entries rest).
  rewrite IH by (intros H; apply Hn; right; exact H).
  cbn [snd fst]. destruct v0 as [| | | | |sv]; try reflexivity.
  rewrite find_key_map. destruct (String.eqb_spec c0 c) as [->|_]; [|reflexivity].
  exfalso. apply Hn. left. reflexivity.
Qed.

Lemma find_entries c svc cats :
  keys_unique cats = true ->
  find (fun e => key_is c svc (fst e)) (export_entries cats) =
    match assoc_lookup c cats with
    | Some (JObj sv) => option_map (fun r => ((c, svc), r)) (assoc_lookup svc sv)
    | _ => None
    end.
Proof.
  induction cats as [|[c0 v0] rest IH]; intros U; [reflexivity|].
  cbn [keys_unique] in U. apply andb_prop in U as [U1 U2]. apply negb_true_iff in U1.
  unfold export_entries. cbn [flat_map assoc_lookup]. rewrite find_app.
  fold (export_entries rest).
  destruct (String.eqb_spec c c0) as [->|Hne].
  - rewrite (find_entries_absent c0 svc rest (not_in_keys _ _ U1)).
    cbn [snd fst]. destruct v0 as [| | | | |sv]; try reflexivity.
    rewrite find_key_map, String.eqb_refl.
    destruct (assoc_lookup svc sv); reflexivity.
  - rewrite (IH U2). cbn [snd fst].
    destruct v0 as [| | | | |sv]; try reflexivity.
    rewrite find_key_map. destruct (String.eqb_spec c0 c); [congruence|reflexivity].
Qed.


Lemma find_Forall2 {A B} (R : A -> B -> Prop) (f : A -> bool) (g : B -> bool) l1 l2 :
  Forall2 R l1 l2 -> (forall a b, R a b -> f a = g b) ->
  match find f l1, find g l2 with
  | None, None => True
  | Some a, Some b => R a b
  | _, _ => False
  end.
Proof.
  intros F Hfg. induction F as [|a b l1' l2' Hab _ IHF]; [exact I|].
  cbn [find]. rewrite (Hfg a b Hab). destruct (g b); [exact Hab|exact IHF].
Qed.

Lemma Forall2_map_right {A B D} (R : A -> B -> Prop) (f : D -> B) l1 l2 :
  Forall2 R l1 (map f l2) -> Forall2 (fun a d => R a (f d)) l1 l2.
Proof.
  revert l1. induction l2 as [|d rest IH]; intros l1 F; inversion F; subst; constructor.
  - assumption.
  - apply IH. assumption.
Qed.


Lemma export_record_text e t :
  export_record (fst (fst e)) (snd (fst e), snd e) = Ok (written_row t) -> exported_as e t.
Proof.
  destruct e as [[c svc] [| | | | |rr]]; try discriminate.
  unfold export_record. cbn [fst snd py_getitem].
  destruct (assoc_lookup "username" rr) as [uj|] eqn:Hu; [|discriminate].
  destruct (assoc_lookup "password" rr) as [pj|] eqn:Hp; [|discriminate].
  cbn [res_bind]. intros H. injection H as H. unfold written_row in H.
  destruct t as [[c' svc'] [u p]]. cbn [fst snd] in H. inversion H; subst.
  split; [reflexivity|]. exists rr. cbn [fst snd]. auto.
Qed.

Lemma rows_exported entries ts :
  Forall2 (fun e t => export_record (fst (fst e)) (snd (fst e), snd e) = Ok (written_row t))
    entries ts ->
  Forall2 exported_as entries ts.
Proof. apply Forall2_impl. intros e t. apply export_record_text. Qed.

Lemma dict_rows_written ts :
  dict_rows export_fieldnames (map (fun t => Ok (written_record t)) ts) =
    map (fun t => Ok (dict_row_of export_fieldnames (written_record t))) ts.
Proof.
  induction ts as [|t ts IH]; [reflexivity|].
  cbn [map]. rewrite <- IH. reflexivity.
Qed.

Lemma Forall2_exported_keys entries ts :
  Forall2 exported_as entries ts -> map fst entries = map fst ts.
Proof. induction 1 as [|e t l1 l2 [Hk _] _ IH]; cbn [map]; congruence. Qed.

Section ExportImport.
Context {Key : Type} (C : codec Key).

Lemma add_password_file_path (s : @store Key) svc u p c tags :
  file_path (snd (add_password C svc u p c tags s)) = file_path s.
Proof.
  unfold add_password, mbind, mlift, get_passwords, set_passwords.
  destruct (add_pure svc u p c tags (passwords s)) as [pw'|e]; cbv beta iota zeta; [|reflexivity].
  rewrite save_passwords_result. reflexivity.
Qed.

Lemma add_password_save_ok (s s1 : @store Key) svc u p c tags :
  add_password C svc u p c tags s = (Ok tt, s1) ->
  save_outcome (file_path s1) (files s1) = Ok tt.
Proof.
  unfold add_password, mbind, mlift, get_passwords, set_passwords.
  destruct (add_pure svc u p c tags (passwords s)) as [pw'|e]; cbv beta iota zeta;
    [|discriminate].
  intros H. apply save_ready_ok. exact (proj1 (save_passwords_ok_ready C _ _ H)).
Qed.

(** [self.add_password] on the values of a row, which on strings is
    [add_password] with no tags. *)
Variable add : option string -> option string -> option string -> option string -> @M Key unit.
Hypothesis add_strings : forall svc u p c (st : @store Key),
  add (Some svc) (Some u) (Some p) (Some c) st = add_password C svc u p c None st.

Lemma import_written_row t (s : @store Key) :
  import_row add (Ok (dict_row_of export_fieldnames (written_record t))) s =
    add_password C (snd (fst t)) (fst (snd t)) (snd (snd t)) (fst (fst t)) None s.
Proof.
  destruct t as [[c svc] [u p]]. cbn [fst snd].
  transitivity (add (Some svc) (Some u) (Some p) (Some c) s); [reflexivity|apply add_strings].
Qed.

(** Importing rows with distinct [(category, service)] pairs: each pair
    ends with the record of its row, without tags; other pairs keep theirs. *)
Lemma import_tuples ts : forall (s : @store Key),
  wf_db (passwords s) = true -> save_outcome (file_path s) (files s) = Ok tt ->
  NoDup (map fst ts) ->
  exists s', import_rows add
      (map (fun t => Ok (dict_row_of export_fieldnames (written_record t))) ts) s = (Ok tt, s') /\
    forall c svc, db_lookup (passwords s') c svc =
      match find (fun t => key_is c svc (fst t)) ts with
      | Some t => Some (mk_record (fst (snd t)) (snd (snd t)) (JArr []))
      | None => db_lookup (passwords s) c svc
      end.
Proof.
  induction ts as [|t0 rest IH]; intros s W Hd Nd.
  - exists s. split; [reflexivity|]. intros; reflexivity.
  - destruct t0 as [[c0 svc0] [u0 p0]]. cbn [fst snd] in *.
    destruct (add_password_result C s svc0 u0 p0 c0 None W)
      as [kvs1 [cats1 [sv1 [Hc [Lc [W1 [L [Hr Hp]]]]]]]].
    remember (snd (add_password C svc0 u0 p0 c0 None s)) as s1 eqn:Hs1.
    assert (Ha : add_password C svc0 u0 p0 c0 None s = (Ok tt, s1)).
    { rewrite Hs1, <- Hd, <- Hr. apply surjective_pairing. }
    assert (W1' : wf_db (passwords s1) = true)
      by (rewrite Hp; apply (db_set_wf _ _ _ _ _ Hc Lc); [reflexivity|exact W1]).
    inversion Nd as [|? ? Hnin Nd']; subst l x.
    destruct (IH s1 W1' (add_password_save_ok _ _ _ _ _ _ _ Ha) Nd') as [s' [Hs' Hl]].
    exists s'. split.
    + cbn [map import_rows]. unfold mbind. rewrite import_written_row. cbn [fst snd].
      rewrite Ha. exact Hs'.
    + intros c svc. rewrite Hl. cbn [find fst snd].
      destruct (key_is c svc (c0, svc0)) eqn:K.
      * apply key_is_eq in K. injection K as <- <-.
        destruct (find _ rest) as [t|] eqn:Fr.
        -- exfalso. apply find_some in Fr as [Hin Kt]. apply key_is_eq in Kt.
           apply Hnin. rewrite <- Kt. apply in_map. exact Hin.
        -- rewrite Hp. exact (db_set_lookup_same _ _ _ _ _ _ Hc Lc).
      * destruct (find _ rest); [reflexivity|]. rewrite Hp.
        apply key_is_false in K.
        rewrite (db_set_lookup_other _ _ _ _ _ _ Hc Lc); [apply L|exact K].
Qed.


(** Export then import: when [export_passwords] succeeds on a well-formed
    database whose categories have distinct service names, writing the
    header and one row of strings per record, when [csv.reader] reads back
    from the file the values written, and when saving the store succeeds,
    then [import_passwords] of that file into the same store returns
    [True]; afterwards every record is [{'username', 'password', 'tags': []}]
    with its old username and password (the tags are lost), and no record
    is added. *)
Theorem export_import_roundtrip (s : @store Key)
  (ts : list ((string * string) * (string * string))) :
  wf_db (passwords s) = true -> services_unique (passwords s) = true ->
  save_outcome (file_path s) (files s) = Ok tt ->
  export_passwords true (passwords s) = (true, map written_row ts) ->
  exists s', import_passwords add
      (Ok (Ok export_fieldnames :: map (fun t => Ok (written_record t)) ts)) s = (Ok true, s') /\
    (forall c svc rec, db_lookup (passwords s) c svc = Some rec ->
       exists u p, py_getitem rec "username" = Ok (JStr u) /\
         py_getitem rec "password" = Ok (JStr p) /\
         db_lookup (passwords s') c svc = Some (mk_record u p (JArr []))) /\
    (forall c svc, db_lookup (passwords s) c svc = None ->
       db_lookup (passwords s') c svc = None).
Proof.
  intros W Su Hd HE. destruct (wf_db_inv _ W) as [kvs [cats [Ep [Hc [U Hw]]]]].
  assert (Ho : forall c v, In (c, v) cats -> is_obj v = true)
    by (intros c v H; destruct (Hw c v H) as [sv [-> _]]; reflexivity).
  assert (Su' : forallb (fun kv => match snd kv with JObj sv => keys_unique sv | _ => false end)
                  cats = true)
    by (unfold services_unique, db_categories in Su; rewrite Ep, Hc in Su; exact Su).
  rewrite (export_passwords_wf _ _ _ Ep Hc) in HE. injection HE as Hok Hout.
  assert (Hw0 : fst (write_categories cats []) = Ok tt)
    by (destruct (fst (write_categories cats [])) as [[]|e]; [reflexivity|discriminate]).
  destruct (write_categories_rows cats Ho [] Hw0) as [ds [Hds F]].
  rewrite Hout in Hds. cbn [app] in Hds. rewrite <- Hds in F.
  apply Forall2_map_right in F.
  pose proof (rows_exported _ _ F) as Ft.
  assert (Nd : NoDup (map fst ts))
    by (rewrite <- (Forall2_exported_keys _ _ Ft); exact (NoDup_entries cats U Su')).
  destruct (import_tuples ts s W Hd Nd) as [s' [Himp Hl]].
  exists s'. split; [|split].
  - unfold import_passwords, mcatch, mbind, mlift, mret. cbn [dict_reader].
    rewrite dict_rows_written, Himp. reflexivity.
  - intros c svc rec Hrec. rewrite Hl.
    assert (Hf := find_Forall2 exported_as (fun e => key_is c svc (fst e))
                    (fun t => key_is c svc (fst t)) _ _ Ft
                    (fun a b H => f_equal (key_is c svc) (proj1 H))).
    rewrite find_entries in Hf by exact U.
    unfold db_lookup, db_services, db_categories in Hrec. rewrite Ep, Hc in Hrec.
    destruct (assoc_lookup c cats) as [[| | | | |sv]|]; try discriminate.
    rewrite Hrec in Hf. cbn [option_map] in Hf.
    destruct (find _ ts) as [t|]; [|destruct Hf].
    destruct Hf as [_ [rr [Hr [Hu Hp]]]].
    cbn [snd] in Hr. subst rec. exists (fst (snd t)), (snd (snd t)).
    cbn [py_getitem]. rewrite Hu, Hp. auto.
  - intros c svc Hn. rewrite Hl.
    assert (Hf := find_Forall2 exported_as (fun e => key_is c svc (fst e))
                    (fun t => key_is c svc (fst t)) _ _ Ft
                    (fun a b H => f_equal (key_is c svc) (proj1 H))).
    rewrite find_entries in Hf by exact U.
    destruct (find _ ts) as [t|]; [|exact Hn].
    exfalso. unfold db_lookup, db_services, db_categories in Hn. rewrite Ep, Hc in Hn.
    destruct (assoc_lookup c cats) as [[| | | | |sv]|]; try exact Hf.
    destruct (assoc_lookup svc sv); [discriminate|exact Hf].
Qed.

End ExportImport.


Lemma export_import_roundtrip_witness :
  let add := fun sv u p c =>
    match sv, u, p, c with
    | Some a, Some b, Some d, Some e => add_password (ref_codec []) a b d e None
    | _, _, _, _ => mret tt
    end in
  let ts := [(("Internet", "x"), ("u", "p"))] in
  (forall svc u p c st, add (Some svc) (Some u) (Some p) (Some c) st =
     add_password (ref_codec []) svc u p c None st) /\
  wf_db (passwords tagged_store) = true /\ services_unique (passwords tagged_store) = true /\
  save_outcome (file_path tagged_store) (files tagged_store) = Ok tt /\
  export_passwords true (passwords tagged_store) = (true, map written_row ts) /\
  exists s', import_passwords add
      (Ok (Ok export_fieldnames :: map (fun t => Ok (written_record t)) ts)) tagged_store
      = (Ok true, s') /\
    (forall c svc rec, db_lookup (passwords tagged_store) c svc = Some rec ->
       exists u p, py_getitem rec "username" = Ok (JStr u) /\
         py_getitem rec "password" = Ok (JStr p) /\
         db_lookup (passwords s') c svc = Some (mk_record u p (JArr []))) /\
    (forall c svc, db_lookup (passwords tagged_store) c svc = None ->
       db_lookup (passwords s') c svc = None).
Proof.
  intros add ts.
  assert (A : forall svc u p c st, add (Some svc) (Some u) (Some p) (Some c) st =
                add_password (ref_codec []) svc u p c None st) by (intros; reflexivity).
  assert (W : wf_db (passwords tagged_store) = true) by (vm_compute; reflexivity).
  assert (Su : services_unique (passwords tagged_store) = true) by (vm_compute; reflexivity).
  assert (Hs : save_outcome (file_path tagged_store) (files tagged_store) = Ok tt)
    by (vm_compute; reflexivity).
  assert (HE : export_passwords true (passwords tagged_store) = (true, map written_row ts))
    by (vm_compute; reflexivity).
  split; [exact A|]. split; [exact W|]. split; [exact Su|]. split; [exact Hs|].
  split; [exact HE|].
  exact (export_import_roundtrip (ref_codec []) add A tagged_store ts W Su Hs HE).
Defined.
